(** * Sentry API client: pagination walker, request executor, query
    composition and local text filter

    A shallow embedding of [sentry_cli.py] (and of the same client class in
    [sentry_client.py]) together with the properties of its pagination and
    filtering core.

    Modelling decisions.
    - Python exceptions are explicit: every fallible operation returns an
      [Outcome], and code that talks to the network is a state transformer
      over a [World] that holds the remote server and the log of requests
      sent so far.
    - The [while] loop of [_get_paginated] need not terminate (an unbounded
      walk against a server that always announces a next page), so it takes
      fuel; [OutOfFuel] means that the loop was still running.
    - What the Python runtime and the [requests] and [datetime] libraries do
      is not part of the repository. [raise_for_status] and the shape of
      [Response.links] follow the [requests] library; case folding, [str()]
      of non-string values and ISO date parsing are an interface
      ([Runtime]) over which every definition and theorem is generic. *)

From Stdlib Require Import ZArith String Ascii Lia.
From stdpp Require Import base option list gmap strings pretty.

Open Scope string_scope.
Open Scope list_scope.
Open Scope Z_scope.

(** ** Data *)

Set Warnings "-register-all".

(** Values decoded from JSON ([Dict[str, Any]] and what it contains). *)
Inductive JSON : Type :=
| JNull
| JBool (b : bool)
| JNum (n : Z)
| JStr (s : string)
| JArr (l : list JSON)
| JObj (m : gmap string JSON).

(** [requests.Response]: the fields the client reads. [json] is the decoded
    body of a list endpoint (a JSON array), [None] when [.json()] raises.
    [links] is the parsed [Link] header, keyed by [rel]. *)
Record Response : Type := mkResponse {
  status_code : Z;
  text : string;
  json : option (list JSON);
  links : gmap string (gmap string string)
}.

Inductive Exn : Type :=
| HTTPError (response : Response)
| ConnectionError (msg : string)
| JSONDecodeError
| KeyError (key : string)
| AttributeError
| ValueError
| SystemExit (code : Z).

Inductive Outcome (A : Type) : Type :=
| Return (a : A)
| Raise (e : Exn)
| OutOfFuel.
Arguments Return {A} a.
Arguments Raise {A} e.
Arguments OutOfFuel {A}.

(** One HTTP GET as [requests.get(url, headers=..., params=...)] sends it. *)
Record Request : Type := mkRequest {
  req_url : string;
  req_headers : gmap string string;
  req_params : option (gmap string JSON)
}.

(** What comes back from the network: a response (of any status), or an
    exception raised by [requests.get] itself. *)
Inductive Reply : Type :=
| Responded (r : Response)
| Failed (e : Exn).

(** The outside world: the remote server, whose reply may depend on every
    request it has seen before, and the requests sent so far. *)
Record World : Type := mkWorld {
  remote : list Request -> Request -> Reply;
  sent : list Request
}.

Definition M (A : Type) : Type := World -> World * Outcome A.

Definition ret {A} (a : A) : M A := fun w => (w, Return a).

Definition bind {A B} (m : M A) (k : A -> M B) : M B :=
  fun w =>
    match m w with
    | (w', Return a) => k a w'
    | (w', Raise e) => (w', Raise e)
    | (w', OutOfFuel) => (w', OutOfFuel)
    end.

Definition obind {A B} (o : Outcome A) (k : A -> Outcome B) : Outcome B :=
  match o with
  | Return a => k a
  | Raise e => Raise e
  | OutOfFuel => OutOfFuel
  end.

Definition lift {A} (o : Outcome A) : M A := fun w => (w, o).

Notation "x <- c1 ;; c2" := (bind c1 (fun x => c2))
  (at level 100, c1 at next level, right associativity).
Notation "x <~ c1 ;; c2" := (obind c1 (fun x => c2))
  (at level 100, c1 at next level, right associativity).

(** [try: ... except Exception as e: handler]. [SystemExit] is not an
    [Exception] and passes through. *)
Definition try_except {A} (body : M A) (handler : Exn -> M A) : M A :=
  fun w =>
    match body w with
    | (w', Raise (SystemExit c)) => (w', Raise (SystemExit c))
    | (w', Raise e) => handler e w'
    | r => r
    end.

(** ** The [requests] library *)

Definition requests_get (url : string) (headers : gmap string string)
    (params : option (gmap string JSON)) : M Response :=
  fun w =>
    let req := mkRequest url headers params in
    let w' := mkWorld (remote w) (sent w ++ [req]) in
    match remote w (sent w) req with
    | Responded r => (w', Return r)
    | Failed e => (w', Raise e)
    end.

(** [Response.raise_for_status]: an [HTTPError] holding the response for a
    status from 400 up to 599, nothing otherwise. *)
Definition raise_for_status (r : Response) : Outcome unit :=
  if bool_decide (400 <= status_code r < 600) then Raise (HTTPError r)
  else Return tt.

(** [response.json()] *)
Definition response_json (r : Response) : Outcome (list JSON) :=
  match json r with
  | Some items => Return items
  | None => Raise JSONDecodeError
  end.

(** ** [class SentryClient] *)

Record SentryClient : Type := mkClient {
  base_url : string;
  auth_token : string;
  org_slug : string;
  headers : gmap string string
}.

Definition SentryClient_init (auth_token org_slug base_url : string)
    : SentryClient :=
  mkClient base_url auth_token org_slug
    (<["Authorization" := "Bearer " +:+ auth_token]>
       (<["Content-Type" := "application/json"]> ∅)).

Definition default_base_url : string := "https://sentry.io/api/0".

Definition _get (self : SentryClient) (url : string)
    (params : option (gmap string JSON)) : M Response :=
  response <- requests_get url (headers self) params ;;
  _ <- lift (raise_for_status response) ;;
  ret response.

(** ['next' in response.links and
     response.links['next'].get('results') == 'true'] *)
Definition has_more (response : Response) : bool :=
  match links response !! "next" with
  | Some next => bool_decide (next !! "results" = Some "true")
  | None => false
  end.

(** [response.links['next']['url']] *)
Definition next_url (response : Response) : Outcome string :=
  match links response !! "next" with
  | Some next =>
      match next !! "url" with
      | Some u => Return u
      | None => Raise (KeyError "url")
      end
  | None => Raise (KeyError "next")
  end.

(** [max_pages and page_count >= max_pages] *)
Definition bound_reached (max_pages : option Z) (page_count : Z) : bool :=
  match max_pages with
  | None => false
  | Some n => if bool_decide (n = 0) then false else bool_decide (n <= page_count)
  end.

(** The [while url:] loop of [_get_paginated]; the state of the loop is
    [url], [params], [all_items] and [page_count]. *)
Fixpoint paginate_loop (fuel : nat) (self : SentryClient) (url : string)
    (params : option (gmap string JSON)) (max_pages : option Z)
    (all_items : list JSON) (page_count : Z) : M (list JSON) :=
  if bool_decide (url = "") then ret all_items
  else
    match fuel with
    | O => lift OutOfFuel
    | S fuel' =>
        response <- _get self url params ;;
        items <- lift (response_json response) ;;
        let all_items := all_items ++ items in
        if has_more response then
          url <- lift (next_url response) ;;
          let params := None in
          let page_count := page_count + 1 in
          if bound_reached max_pages page_count then ret all_items
          else paginate_loop fuel' self url params max_pages all_items page_count
        else ret all_items
    end.

Definition _get_paginated (fuel : nat) (self : SentryClient) (url : string)
    (params : option (gmap string JSON)) (max_pages : option Z)
    : M (list JSON) :=
  paginate_loop fuel self url params max_pages [] 0.

(** [list_issue_events] *)
Definition list_issue_events (fuel : nat) (self : SentryClient)
    (issue_id : string) (limit : Z) (paginate : bool) (max_pages : option Z)
    : M (list JSON) :=
  let url := base_url self +:+ "/issues/" +:+ issue_id +:+ "/events/" in
  let params : gmap string JSON := {[ "limit" := JNum limit ]} in
  if paginate then _get_paginated fuel self url (Some params) max_pages
  else
    response <- _get self url (Some params) ;;
    lift (response_json response).

(** Truth value of an optional string ([if x:]): [None] and the empty string
    are false. The result is the value itself when it is true. *)
Definition truthy (x : option string) : option string :=
  match x with
  | Some s => if bool_decide (s = "") then None else Some s
  | None => None
  end.

(** [list_issues] *)
Definition list_issues (self : SentryClient) (project_slug : option string)
    (stats_period : string) (limit : Z) (sort : string)
    (query : option string) : M (list JSON) :=
  let url :=
    match truthy project_slug with
    | Some p =>
        base_url self +:+ "/projects/" +:+ org_slug self +:+ "/" +:+ p
          +:+ "/issues/"
    | None =>
        base_url self +:+ "/organizations/" +:+ org_slug self +:+ "/issues/"
    end in
  let params : gmap string JSON :=
    <["statsPeriod" := JStr stats_period]>
      (<["limit" := JNum limit]> (<["sort" := JStr sort]> ∅)) in
  let params :=
    match truthy query with
    | Some q => <["query" := JStr q]> params
    | None => params
    end in
  response <- _get self url (Some params) ;;
  lift (response_json response).

(** ** The Python runtime *)

(** What the embedding takes from the interpreter and its standard library:
    [str.lower], [str()] of a value that is not a [str], and
    [datetime.fromisoformat] ([None] when it raises [ValueError]) with
    [datetime.isoformat]. *)
Class Runtime : Type := mkRuntime {
  str_lower : string -> string;
  repr : JSON -> string;
  datetime : Type;
  fromisoformat : string -> option datetime;
  isoformat : datetime -> string
}.

(** [a in b] on strings *)
Fixpoint is_prefix (p s : string) : bool :=
  match p, s with
  | EmptyString, _ => true
  | String a p', String b s' => bool_decide (a = b) && is_prefix p' s'
  | String _ _, EmptyString => false
  end.

Fixpoint contains (needle hay : string) {struct hay} : bool :=
  is_prefix needle hay
  || match hay with
     | EmptyString => false
     | String _ hay' => contains needle hay'
     end.

(** The command line of [fetch-issues], as [argparse] hands it over. *)
Record Args : Type := mkArgs {
  arg_project : string;
  arg_environment : option string;
  arg_start_at : option string;
  arg_end_at : option string;
  arg_query : option string;
  arg_text_filter : option string;
  arg_stats_period : option string;
  arg_limit : Z;
  arg_sort : string
}.

Section WithRuntime.
Context `{!Runtime}.

(** [str(v)] *)
Definition py_str (v : JSON) : string :=
  match v with
  | JStr s => s
  | _ => repr v
  end.

(** [d.get(key, default)]: only a [dict] has the method. *)
Definition dict_get (d : JSON) (key : string) (default : JSON)
    : Outcome JSON :=
  match d with
  | JObj m =>
      match m !! key with
      | Some v => Return v
      | None => Return default
      end
  | _ => Raise AttributeError
  end.

(** [v.lower()]: only a [str] has the method. *)
Definition lower_method (v : JSON) : Outcome string :=
  match v with
  | JStr s => Return (str_lower s)
  | _ => Raise AttributeError
  end.

Definition matches_text_filter (issue : JSON) (text_filter : string)
    : Outcome bool :=
  let text_filter_lower := str_lower text_filter in
  title <~ dict_get issue "title" (JStr "") ;;
  title_lower <~ lower_method title ;;
  if contains text_filter_lower title_lower then Return true
  else
    culprit <~ dict_get issue "culprit" (JStr "") ;;
    culprit_lower <~ lower_method culprit ;;
    if contains text_filter_lower culprit_lower then Return true
    else
      metadata <~ dict_get issue "metadata" (JObj ∅) ;;
      value <~ dict_get metadata "value" (JStr "") ;;
      if contains text_filter_lower (str_lower (py_str value))
      then Return true
      else
        type <~ dict_get metadata "type" (JStr "") ;;
        if contains text_filter_lower (str_lower (py_str type))
        then Return true
        else Return false.

(** [[issue for issue in issues if matches_text_filter(issue, text_filter)]] *)
Fixpoint filter_issues (issues : list JSON) (text_filter : string)
    : Outcome (list JSON) :=
  match issues with
  | [] => Return []
  | issue :: rest =>
      keep <~ matches_text_filter issue text_filter ;;
      kept <~ filter_issues rest text_filter ;;
      Return (if keep then issue :: kept else kept)
  end.

(** One date filter: [if d: dt = datetime.fromisoformat(d);
    query_parts.append(f"firstSeen:{op}{dt.isoformat()}Z")] *)
Definition append_date (query_parts : list string) (op : string)
    (d : option string) : Outcome (list string) :=
  match truthy d with
  | Some d =>
      match fromisoformat d with
      | Some dt =>
          Return (query_parts ++ ["firstSeen:" +:+ op +:+ isoformat dt +:+ "Z"])
      | None => Raise ValueError
      end
  | None => Return query_parts
  end.

(** The query string built at the head of [cmd_fetch_issues]. *)
Definition build_query (args : Args) : Outcome (option string) :=
  let query_parts : list string := [] in
  let query_parts :=
    match truthy (arg_environment args) with
    | Some env => query_parts ++ ["environment:" +:+ env]
    | None => query_parts
    end in
  query_parts <~ append_date query_parts ">" (arg_start_at args) ;;
  query_parts <~ append_date query_parts "<" (arg_end_at args) ;;
  let query_parts :=
    match truthy (arg_query args) with
    | Some q => query_parts ++ [q]
    | None => query_parts
    end in
  Return (match query_parts with
          | [] => None
          | _ :: _ => Some (String.concat " " query_parts)
          end).

(** [cmd_fetch_issues] up to the list it hands to the printing code. The
    query is built outside the [try]; whatever the [try] block raises is
    reported and turned into [sys.exit(1)]. *)
Definition cmd_fetch_issues (args : Args) (client : SentryClient)
    : M (list JSON) :=
  query <- lift (build_query args) ;;
  let stats_period := default "24h" (truthy (arg_stats_period args)) in
  try_except
    (issues <- list_issues client (Some (arg_project args)) stats_period
                 (arg_limit args) (arg_sort args) query ;;
     match truthy (arg_text_filter args) with
     | Some text_filter => lift (filter_issues issues text_filter)
     | None => ret issues
     end)
    (fun e => lift (Raise (SystemExit 1))).

End WithRuntime.

(** ** Vocabulary of the properties *)

(** A response that [_get] hands back: [raise_for_status] lets it through. *)
Definition accepted (r : Response) : Prop := ¬ (400 <= status_code r < 600).

(** The response carries a next link marked as having further results, and
    the link has an address [u] to continue at. *)
Definition announces_next (r : Response) (u : string) : Prop :=
  ∃ next, links r !! "next" = Some next
          ∧ next !! "results" = Some "true"
          ∧ next !! "url" = Some u ∧ u ≠ "".

(** The response carries no next link marked as having further results: no
    next link at all, or one whose [results] is not the string [true]. *)
Definition no_further_results (r : Response) : Prop :=
  ∀ next, links r !! "next" = Some next -> next !! "results" ≠ Some "true".

(** Every reply of the server is a page with a next link. *)
Definition always_more (srv : list Request -> Request -> Reply) : Prop :=
  ∀ h req, ∃ r items u,
    srv h req = Responded r ∧ accepted r ∧ json r = Some items
    ∧ announces_next r u.

(** The items of one page, and of the pages fetched by the requests [reqs]
    sent in this order after the history [h]. *)
Definition page_items (rep : Reply) : list JSON :=
  match rep with
  | Responded r => default [] (json r)
  | Failed _ => []
  end.

Fixpoint session_items (srv : list Request -> Request -> Reply)
    (h reqs : list Request) : list JSON :=
  match reqs with
  | [] => []
  | req :: reqs' => page_items (srv h req) ++ session_items srv (h ++ [req]) reqs'
  end.

(** The request [req], sent after the history [h], makes [_get] raise [e]:
    either [requests.get] raises it, or the status is refused. *)
Definition request_fails (srv : list Request -> Request -> Reply)
    (h : list Request) (req : Request) (e : Exn) : Prop :=
  match srv h req with
  | Failed e' => e = e'
  | Responded r => 400 <= status_code r < 600 ∧ e = HTTPError r
  end.

(** [serves srv hdrs h url params pages]: walking from [url] after the
    history [h], the server answers with the pages [pages], each but the last
    announcing a next page, the last one not. *)
Inductive serves (srv : list Request -> Request -> Reply)
    (hdrs : gmap string string)
    : list Request -> string -> option (gmap string JSON)
      -> list (list JSON) -> Prop :=
| serves_last h url params r items :
    srv h (mkRequest url hdrs params) = Responded r ->
    accepted r -> json r = Some items -> no_further_results r ->
    serves srv hdrs h url params [items]
| serves_more h url params r items u pages :
    srv h (mkRequest url hdrs params) = Responded r ->
    accepted r -> json r = Some items -> announces_next r u ->
    serves srv hdrs (h ++ [mkRequest url hdrs params]) u None pages ->
    serves srv hdrs h url params (items :: pages).

(** The requests [rest] that follow [prev] in one walk: each goes to the
    address of the next link of the response before it, with the same
    headers and without query parameters. *)
Fixpoint continuation_chain (srv : list Request -> Request -> Reply)
    (h : list Request) (prev : Request) (rest : list Request) : Prop :=
  match rest with
  | [] => True
  | req :: rest' =>
      (∃ r, srv h prev = Responded r ∧ has_more r = true
            ∧ next_url r = Return (req_url req))
      ∧ req_params req = None
      ∧ req_headers req = req_headers prev
      ∧ continuation_chain srv (h ++ [prev]) req rest'
  end.

(** The query as the specification words it: the fragments that are set, in
    the order environment, start, end, free text, joined by single spaces;
    absent when there is none. *)
Definition spec_fragments `{!Runtime} (environment : option string)
    (start_at end_at : option datetime) (raw_query : option string)
    : list string :=
  option_list ((λ env, "environment:" +:+ env) <$> environment)
  ++ option_list ((λ dt, "firstSeen:>" +:+ isoformat dt +:+ "Z") <$> start_at)
  ++ option_list ((λ dt, "firstSeen:<" +:+ isoformat dt +:+ "Z") <$> end_at)
  ++ option_list raw_query.

Definition spec_query `{!Runtime} (environment : option string)
    (start_at end_at : option datetime) (raw_query : option string)
    : option string :=
  match spec_fragments environment start_at end_at raw_query with
  | [] => None
  | fragments => Some (String.concat " " fragments)
  end.

(** A date argument read the way the command reads it: not given, or given
    and parsed. *)
Definition date_read `{!Runtime} (d : option string) (dt : option datetime)
    : Prop :=
  match truthy d with
  | Some s => fromisoformat s = dt ∧ is_Some dt
  | None => dt = None
  end.

(** The text of a field as the specification words it: the string when the
    field is there, the empty string when it is missing. *)
Definition field_text `{!Runtime} (m : gmap string JSON) (key : string)
    : string :=
  match m !! key with
  | Some v => py_str v
  | None => ""
  end.

Definition metadata_of (m : gmap string JSON) : gmap string JSON :=
  match m !! "metadata" with
  | Some (JObj md) => md
  | _ => ∅
  end.

(** The filter occurs, case folded, in one of the four fields. *)
Definition occurs_in_fields `{!Runtime} (m : gmap string JSON)
    (text_filter : string) : bool :=
  let f := str_lower text_filter in
  contains f (str_lower (field_text m "title"))
  || contains f (str_lower (field_text m "culprit"))
  || contains f (str_lower (field_text (metadata_of m) "value"))
  || contains f (str_lower (field_text (metadata_of m) "type")).

(** The fields have the types the filter relies on: title and culprit are
    strings when present, metadata is an object when present. *)
Definition text_or_absent (m : gmap string JSON) (key : string) : Prop :=
  match m !! key with
  | Some (JStr _) | None => True
  | Some _ => False
  end.

Definition well_typed_issue (issue : JSON) : Prop :=
  match issue with
  | JObj m =>
      text_or_absent m "title" ∧ text_or_absent m "culprit"
      ∧ match m !! "metadata" with
        | Some (JObj _) | None => True
        | Some _ => False
        end
  | _ => False
  end.

(** ** A small runtime and servers to evaluate the code on *)

Definition ascii_lower (c : ascii) : ascii :=
  let n := N_of_ascii c in
  if ((65 <=? n) && (n <=? 90))%N then ascii_of_N (n + 32) else c.

Fixpoint ascii_text_lower (s : string) : string :=
  match s with
  | EmptyString => EmptyString
  | String c s' => String (ascii_lower c) (ascii_text_lower s')
  end.

(** [str()] of the scalars; containers are abbreviated. *)
Definition scalar_repr (v : JSON) : string :=
  match v with
  | JNull => "None"
  | JBool true => "True"
  | JBool false => "False"
  | JNum n => pretty n
  | JStr s => s
  | JArr _ => "[...]"
  | JObj _ => "{...}"
  end.

Record SampleDate : Type := mkDate {
  year : Z; month : Z; day : Z; hour : Z; minute : Z; second : Z
}.

Definition digit (c : ascii) : option Z :=
  let n := Z.of_N (N_of_ascii c) in
  if bool_decide (48 <= n <= 57) then Some (n - 48) else None.

Definition two_digits (a b : ascii) : option Z :=
  x ← digit a; y ← digit b; Some (10 * x + y).

Definition days_in_month (y m : Z) : Z :=
  if bool_decide (m = 2) then
    if bool_decide (y mod 4 = 0 ∧ (y mod 100 ≠ 0 ∨ y mod 400 = 0)) then 29
    else 28
  else if bool_decide (m ∈ [4; 6; 9; 11]) then 30 else 31.

Definition checked_date (y m d hh mm ss : Z) : option SampleDate :=
  if bool_decide (1 <= y ∧ 1 <= m <= 12 ∧ 1 <= d <= days_in_month y m
                  ∧ hh < 24 ∧ mm < 60 ∧ ss < 60)
  then Some (mkDate y m d hh mm ss) else None.

(** Reads [YYYY-MM-DD] and [YYYY-MM-DDTHH:MM:SS], the two forms the help
    text of the command names. *)
Definition sample_fromisoformat (s : string) : option SampleDate :=
  match list_ascii_of_string s with
  | [y1; y2; y3; y4; "-"; m1; m2; "-"; d1; d2]%char =>
      c ← two_digits y1 y2; y ← two_digits y3 y4;
      m ← two_digits m1 m2; d ← two_digits d1 d2;
      checked_date (100 * c + y) m d 0 0 0
  | [y1; y2; y3; y4; "-"; m1; m2; "-"; d1; d2; "T";
     h1; h2; ":"; n1; n2; ":"; s1; s2]%char =>
      c ← two_digits y1 y2; y ← two_digits y3 y4;
      m ← two_digits m1 m2; d ← two_digits d1 d2;
      hh ← two_digits h1 h2; mm ← two_digits n1 n2; ss ← two_digits s1 s2;
      checked_date (100 * c + y) m d hh mm ss
  | _ => None
  end.

Definition pad (width : nat) (n : Z) : string :=
  let digits := pretty n in
  string_of_list_ascii
    (replicate (width - String.length digits) "0"%char)
  +:+ digits.

Definition sample_isoformat (dt : SampleDate) : string :=
  pad 4 (year dt) +:+ "-" +:+ pad 2 (month dt) +:+ "-" +:+ pad 2 (day dt)
  +:+ "T" +:+ pad 2 (hour dt) +:+ ":" +:+ pad 2 (minute dt) +:+ ":"
  +:+ pad 2 (second dt).

#[local] Instance sample_runtime : Runtime :=
  mkRuntime ascii_text_lower scalar_repr SampleDate
    sample_fromisoformat sample_isoformat.

Definition sample_client : SentryClient :=
  SentryClient_init "token" "square-inc" default_base_url.

Definition next_link (url results : string)
    : gmap string (gmap string string) :=
  {[ "next" := {[ "url" := url; "results" := results; "rel" := "next" ]} ]}.

Definition events_url : string :=
  "https://sentry.io/api/0/issues/123/events/".

Definition cursor_url (n : nat) : string :=
  events_url +:+ "?cursor=0:" +:+ pretty n +:+ ":0".

(** A server that always has one more page: page [n] holds the item [n]. *)
Definition endless_server : list Request -> Request -> Reply :=
  fun h _ =>
    Responded (mkResponse 200 "[...]" (Some [JNum (Z.of_nat (length h))])
                 (next_link (cursor_url (S (length h))) "true")).

(** A server that answers the [n]-th request with the [n]-th scripted
    reply, and drops the connection once the script is over. *)
Definition scripted_server (replies : list Reply)
    : list Request -> Request -> Reply :=
  fun h _ =>
    default (Failed (ConnectionError "connection reset")) (replies !! length h).

Definition fresh (srv : list Request -> Request -> Reply) : World :=
  mkWorld srv [].

Definition object (fields : list (string * JSON)) : JSON :=
  JObj (list_to_map fields).

(** Sample pages and sessions. *)
Definition page_with_next (items : list JSON) (cursor : nat) : Response :=
  mkResponse 200 "[...]" (Some items) (next_link (cursor_url cursor) "true").

Definition last_page (items : list JSON) : Response :=
  mkResponse 200 "[...]" (Some items) (next_link (cursor_url 0) "false").

Definition page_without_link (items : list JSON) : Response :=
  mkResponse 200 "[...]" (Some items) ∅.

Definition not_modified : Response :=
  mkResponse 304 "" (Some []) ∅.

Definition server_error : Response :=
  mkResponse 500 "Internal Error" None ∅.

(** Page 1 with 100 events and a next link, page 2 with 40 events and none. *)
Definition two_page_session : list Reply :=
  [Responded (page_with_next (replicate 100 (object [("id", JStr "a")])) 1);
   Responded (last_page (replicate 40 (object [("id", JStr "b")])))].

(** Two pages that announce a next one, then a failing third request. *)
Definition failing_session : list Reply :=
  [Responded (page_with_next [JNum 1; JNum 2] 1);
   Responded (page_with_next [JNum 3] 2);
   Responded server_error].

Definition limit_100 : option (gmap string JSON) :=
  Some {[ "limit" := JNum 100 ]}.

Definition two_page_world : World := fresh (scripted_server two_page_session).
Definition failing_world : World := fresh (scripted_server failing_session).
Definition empty_page_world : World :=
  fresh (scripted_server [Responded (page_without_link [])]).
Definition not_modified_world : World :=
  fresh (scripted_server [Responded not_modified]).
Definition server_error_world : World :=
  fresh (scripted_server [Responded server_error]).

Definition first_request : Request :=
  mkRequest events_url (headers sample_client) limit_100.

(** ** The request executor *)

(** Sample issues and command lines. *)
Definition null_pointer_issue : JSON :=
  object [("title", JStr "Null pointer in Foo")].

Definition timeout_issue : JSON := object [("title", JStr "Timeout")].

(** An issue whose culprit is the JSON [null]. *)
Definition null_culprit_issue : JSON :=
  object [("title", JStr "Timeout"); ("culprit", JNull);
          ("metadata", object [("value", JStr "connection reset");
                               ("type", JStr "OSError")])].

Definition null_culprit_fields : gmap string JSON :=
  list_to_map
    [("title", JStr "Timeout"); ("culprit", JNull);
     ("metadata", object [("value", JStr "connection reset");
                          ("type", JStr "OSError")])].

Definition issues_world (issues : list JSON) : World :=
  fresh (scripted_server [Responded (page_without_link issues)]).

Definition plain_args : Args :=
  mkArgs "billing-service" None None None None None None 50 "date".

Definition filter_args (text_filter : string) : Args :=
  mkArgs "billing-service" None None None None (Some text_filter) None 50
    "date".

Definition production_args : Args :=
  mkArgs "billing-service" (Some "production") None None
    (Some "is:unresolved") None None 50 "date".

Definition all_criteria_args : Args :=
  mkArgs "billing-service" (Some "production") (Some "2024-01-01")
    (Some "2024-02-29T12:30:00") (Some "is:unresolved") None None 50 "date".

Definition bad_date_args : Args :=
  mkArgs "billing-service" (Some "production") (Some "yesterday") None None
    None None 50 "date".

(** The outcome is the value [True]. *)
Definition returns_true (o : Outcome bool) : bool :=
  match o with
  | Return true => true
  | _ => false
  end.

(** ** The rest of the client and of the commands *)

(** [json.loads]: the decoder behind [response.json()], [None] when it
    raises. [Response] keeps the decoded array of a list endpoint in [json];
    the body of an endpoint that answers with one object is decoded from
    [text]. *)
Class JsonCodec : Type := mkJsonCodec {
  json_loads : string -> option JSON
}.

(** [response.json()] of a single-object endpoint *)
Definition response_object `{!JsonCodec} (r : Response) : Outcome JSON :=
  match json_loads (text r) with
  | Some v => Return v
  | None => Raise JSONDecodeError
  end.

(** [list_organizations] (in [sentry_client.py]) *)
Definition list_organizations (self : SentryClient) : M (list JSON) :=
  let url := base_url self +:+ "/organizations/" in
  response <- _get self url None ;;
  lift (response_json response).

(** [list_projects] *)
Definition list_projects (self : SentryClient) : M (list JSON) :=
  let url :=
    base_url self +:+ "/organizations/" +:+ org_slug self +:+ "/projects/" in
  response <- _get self url None ;;
  lift (response_json response).

(** [get_project] (in [sentry_client.py]) *)
Definition get_project `{!JsonCodec} (self : SentryClient)
    (project_slug : string) : M JSON :=
  let url :=
    base_url self +:+ "/projects/" +:+ org_slug self +:+ "/" +:+ project_slug
      +:+ "/" in
  response <- _get self url None ;;
  lift (response_object response).

(** [get_issue] *)
Definition get_issue `{!JsonCodec} (self : SentryClient) (issue_id : string)
    : M JSON :=
  let url := base_url self +:+ "/issues/" +:+ issue_id +:+ "/" in
  response <- _get self url None ;;
  lift (response_object response).

(** [get_latest_event] *)
Definition get_latest_event `{!JsonCodec} (self : SentryClient)
    (issue_id : string) : M JSON :=
  let url := base_url self +:+ "/issues/" +:+ issue_id +:+ "/events/latest/" in
  response <- _get self url None ;;
  lift (response_object response).

(** The [data] dictionary that [update_issue] (in [sentry_client.py]) sends
    as the JSON body of its [PUT]. *)
Definition update_issue_data (status assigned_to : option string)
    (has_seen is_bookmarked is_subscribed : option bool)
    : gmap string JSON :=
  let data : gmap string JSON := ∅ in
  let data :=
    match truthy status with
    | Some s => <["status" := JStr s]> data
    | None => data
    end in
  let data :=
    match assigned_to with
    | Some a => <["assignedTo" := JStr a]> data
    | None => data
    end in
  let data :=
    match has_seen with
    | Some b => <["hasSeen" := JBool b]> data
    | None => data
    end in
  let data :=
    match is_bookmarked with
    | Some b => <["isBookmarked" := JBool b]> data
    | None => data
    end in
  match is_subscribed with
  | Some b => <["isSubscribed" := JBool b]> data
  | None => data
  end.

(** The command line of [fetch-events]. *)
Record EventArgs : Type := mkEventArgs {
  ev_issue : string;
  ev_limit : Z;
  ev_latest : bool;
  ev_paginate : bool;
  ev_max_pages : option Z
}.

(** [cmd_fetch_events] up to the list of events it hands to the printing
    code. *)
Definition cmd_fetch_events `{!JsonCodec} (fuel : nat) (args : EventArgs)
    (client : SentryClient) : M (list JSON) :=
  try_except
    (if ev_latest args then
       event <- get_latest_event client (ev_issue args) ;;
       ret [event]
     else
       list_issue_events fuel client (ev_issue args) (ev_limit args)
         (ev_paginate args) (ev_max_pages args))
    (fun e => lift (Raise (SystemExit 1))).

(** [cmd_fetch_issue] up to the issue it hands to the printing code. *)
Definition cmd_fetch_issue `{!JsonCodec} (issue : string)
    (client : SentryClient) : M JSON :=
  try_except (get_issue client issue)
    (fun e => lift (Raise (SystemExit 1))).

(** ** More vocabulary *)



(** An exception that [except Exception] catches. *)
Definition ordinary (e : Exn) : Prop :=
  match e with
  | SystemExit _ => False
  | _ => True
  end.

(** The address [list_issues] sends its request to. *)
Definition issues_url (self : SentryClient) (project_slug : string) : string :=
  if bool_decide (project_slug = "") then
    base_url self +:+ "/organizations/" +:+ org_slug self +:+ "/issues/"
  else
    base_url self +:+ "/projects/" +:+ org_slug self +:+ "/" +:+ project_slug
      +:+ "/issues/".

(** A decoder that knows two documents, to evaluate the code on. *)
Definition sample_json_loads (s : string) : option JSON :=
  if bool_decide (s = "{}") then Some (JObj ∅)
  else if bool_decide (s = "null") then Some JNull
  else None.

#[local] Instance sample_codec : JsonCodec := mkJsonCodec sample_json_loads.

Definition empty_object_response : Response :=
  mkResponse 200 "{}" None ∅.

Definition latest_world : World :=
  fresh (scripted_server [Responded empty_object_response]).

(** A page whose next link is marked as having results but has no address. *)
Definition page_with_empty_next (items : list JSON) : Response :=
  mkResponse 200 "[...]" (Some items) (next_link "" "true").

Definition empty_next_world : World :=
  fresh (scripted_server [Responded (page_with_empty_next [JNum 1; JNum 2])]).

Definition three_pages : list (list JSON) :=
  [[JNum 1; JNum 2]; [JNum 3]; [JNum 4; JNum 5]].

Definition three_page_session : list Reply :=
  [Responded (page_with_next [JNum 1; JNum 2] 1);
   Responded (page_with_next [JNum 3] 2);
   Responded (last_page [JNum 4; JNum 5])].

Definition three_page_world : World :=
  fresh (scripted_server three_page_session).

Definition paginated_events (max_pages : option Z) : EventArgs :=
  mkEventArgs "123" 100 false true max_pages.

Definition latest_event_args : EventArgs :=
  mkEventArgs "123" 100 true true (Some 5).

(** An issue whose title matches although its culprit is [null]. *)
Definition reset_title_issue : gmap string JSON :=
  list_to_map [("title", JStr "Connection RESET by peer"); ("culprit", JNull)].

Definition well_typed_fields : gmap string JSON :=
  list_to_map
    [("title", JStr "Timeout");
     ("metadata", object [("value", JNum 504); ("type", JStr "HTTPError")])].

Lemma announces_next_elim r u :
  announces_next r u -> has_more r = true ∧ next_url r = Return u ∧ u ≠ "".
Proof.
  intros (next & Hnext & Hres & Hu & Hne). unfold has_more, next_url.
  rewrite Hnext, Hu. by rewrite bool_decide_true.
Qed.

Lemma no_further_results_elim r : no_further_results r -> has_more r = false.
Proof.
  intros Hno. unfold has_more.
  destruct (links r !! "next") as [next|] eqn:Hnext; [|done].
  apply bool_decide_false. by apply Hno.
Qed.

Lemma get_unfold self url params w :
  _get self url params w =
    let req := mkRequest url (headers self) params in
    (mkWorld (remote w) (sent w ++ [req]),
     match remote w (sent w) req with
     | Failed e => Raise e
     | Responded r =>
         if bool_decide (400 <= status_code r < 600)
         then Raise (HTTPError r) else Return r
     end).
Proof.
  unfold _get, bind, requests_get, lift, ret, raise_for_status. cbn.
  destruct (remote w _ _) as [r|e]; [|done].
  by case_bool_decide.
Qed.

(** [request_fails] says no more and no less than that [_get] raises. *)
Lemma request_fails_get self url params w e :
  request_fails (remote w) (sent w) (mkRequest url (headers self) params) e
  ↔ (_get self url params w).2 = Raise e.
Proof.
  rewrite get_unfold. unfold request_fails. cbn.
  destruct (remote w _ _) as [r|e']; [|split; congruence].
  case_bool_decide; split.
  - by intros [_ ->].
  - by intros [= ->].
  - by intros [? _].
  - done.
Qed.

(** One turn of the loop, case by case. *)
Lemma paginate_loop_step fuel self url params max_pages all_items page_count w :
  url ≠ "" ->
  paginate_loop (S fuel) self url params max_pages all_items page_count w =
    let req := mkRequest url (headers self) params in
    let w1 := mkWorld (remote w) (sent w ++ [req]) in
    match remote w (sent w) req with
    | Failed e => (w1, Raise e)
    | Responded r =>
        if bool_decide (400 <= status_code r < 600)
        then (w1, Raise (HTTPError r))
        else
          match json r with
          | None => (w1, Raise JSONDecodeError)
          | Some items =>
              if has_more r then
                match next_url r with
                | Return u =>
                    if bound_reached max_pages (page_count + 1)
                    then (w1, Return (all_items ++ items))
                    else paginate_loop fuel self u None max_pages
                           (all_items ++ items) (page_count + 1) w1
                | Raise e => (w1, Raise e)
                | OutOfFuel => (w1, OutOfFuel)
                end
              else (w1, Return (all_items ++ items))
          end
    end.
Proof.
  intros Hurl. cbn [paginate_loop].
  rewrite bool_decide_false by done.
  unfold bind at 1. rewrite get_unfold. cbn.
  destruct (remote w _ _) as [r|e]; [|done].
  case_bool_decide; [done|].
  unfold bind, lift, response_json, ret.
  destruct (json r) as [items|]; [|done].
  destruct (has_more r); [|done].
  destruct (next_url r) as [u|e|]; try done.
  by destruct (bound_reached _ _).
Qed.

Lemma paginate_loop_no_url fuel self params max_pages all_items page_count w :
  paginate_loop fuel self "" params max_pages all_items page_count w
  = (w, Return all_items).
Proof. by destruct fuel. Qed.

Lemma paginate_loop_no_fuel self url params max_pages all_items page_count w :
  url ≠ "" ->
  paginate_loop 0 self url params max_pages all_items page_count w
  = (w, OutOfFuel).
Proof. intros Hurl. cbn. by rewrite bool_decide_false. Qed.

(** The walker never touches the server, only the log. *)
Lemma paginate_loop_remote fuel self url params max_pages all_items page_count w :
  remote (paginate_loop fuel self url params max_pages all_items page_count w).1
  = remote w.
Proof.
  revert url params all_items page_count w.
  induction fuel as [|fuel IH]; intros url params all_items page_count w.
  - cbn. by case_bool_decide.
  - destruct (decide (url = "")) as [->|Hurl].
    { by rewrite paginate_loop_no_url. }
    rewrite paginate_loop_step by done. cbn.
    repeat (case_match; try done).
    by rewrite IH.
Qed.

(** C3 (as the code has it). A response with a status from 400 up to 599
    makes [_get] raise an [HTTPError] that holds the response, hence its
    status code and body; any other response, every 2xx one included, is
    returned. Either way exactly one request has been sent: nothing is
    retried. *)
Theorem get_raises_on_error_status self url params w r :
  remote w (sent w) (mkRequest url (headers self) params) = Responded r ->
  (_get self url params w).1
    = mkWorld (remote w) (sent w ++ [mkRequest url (headers self) params])
  ∧ (400 <= status_code r < 600 ->
     (_get self url params w).2 = Raise (HTTPError r))
  ∧ (¬ (400 <= status_code r < 600) ->
     (_get self url params w).2 = Return r)
  ∧ (200 <= status_code r < 300 ->
     (_get self url params w).2 = Return r).
Proof.
  intros Hr. rewrite get_unfold. cbn. rewrite Hr.
  repeat split; intros; case_bool_decide; done || lia.
Qed.

(** ** The pagination walker *)

(** The shape of the log of one walk: it only grows, its first request is
    the caller's, and every later request continues from the response
    before it. *)
Lemma paginate_loop_log fuel self url params max_pages all_items page_count w :
  ∃ reqs,
    (paginate_loop fuel self url params max_pages all_items page_count w).1
      = mkWorld (remote w) (sent w ++ reqs)
    ∧ match reqs with
      | [] => url = "" ∨ fuel = 0%nat
      | req :: rest =>
          req = mkRequest url (headers self) params
          ∧ continuation_chain (remote w) (sent w) req rest
      end.
Proof.
  revert url params all_items page_count w.
  induction fuel as [|fuel IH]; intros url params all_items page_count w.
  - exists []. rewrite app_nil_r. split; [|by right].
    cbn. case_bool_decide; by destruct w.
  - destruct (decide (url = "")) as [->|Hurl].
    { exists []. rewrite paginate_loop_no_url, app_nil_r.
      split; [by destruct w|by left]. }
    rewrite paginate_loop_step by done. cbn.
    set (req := mkRequest url (headers self) params).
    assert (Hone : ∀ out : Outcome (list JSON),
      ∃ reqs, (mkWorld (remote w) (sent w ++ [req]), out).1
                = mkWorld (remote w) (sent w ++ reqs)
              ∧ match reqs with
                | [] => url = "" ∨ S fuel = 0%nat
                | req' :: rest =>
                    req' = req ∧ continuation_chain (remote w) (sent w) req' rest
                end).
    { intros out. by exists [req]. }
    destruct (remote w (sent w) req) as [r|e] eqn:Hr; [|done].
    case_bool_decide; [done|].
    destruct (json r) as [items|]; [|done].
    destruct (has_more r) eqn:Hmore; [|done].
    destruct (next_url r) as [u|e|] eqn:Hu; try done.
    destruct (bound_reached _ _); [done|].
    destruct (IH u None (all_items ++ items) (page_count + 1)
                (mkWorld (remote w) (sent w ++ [req]))) as (reqs & Hw & Hshape).
    exists (req :: reqs). cbn in Hw. rewrite Hw, <- app_assoc. split; [done|].
    split; [done|].
    destruct reqs as [|req' rest]; [done|].
    destruct Hshape as [-> Hchain]. cbn. eauto 10.
Qed.

Lemma continuation_chain_frame srv h prev rest :
  continuation_chain srv h prev rest ->
  Forall (λ req, req_params req = None ∧ req_headers req = req_headers prev)
    rest.
Proof.
  revert h prev. induction rest as [|req rest IH]; intros h prev; [done|].
  intros (_ & Hp & Hh & Hchain). constructor; [done|].
  eapply Forall_impl; [by eapply IH|].
  intros req' [? ?]. split; congruence.
Qed.

(** The walk against a server that always has a next page, bounded by
    [max_pages = N]: it stops when the counter reaches [N]. *)
Lemma paginate_loop_bounded srv self N :
  always_more srv ->
  ∀ fuel url params all_items page_count w,
    remote w = srv -> url ≠ "" -> 0 <= page_count < N ->
    (Z.to_nat (N - page_count) <= fuel)%nat ->
    ∃ reqs,
      paginate_loop fuel self url params (Some N) all_items page_count w
        = (mkWorld srv (sent w ++ reqs),
           Return (all_items ++ session_items srv (sent w) reqs))
      ∧ length reqs = Z.to_nat (N - page_count).
Proof.
  intros Hsrv fuel.
  induction fuel as [|fuel IH]; intros url params all_items page_count w
    Hw Hurl Hpc Hfuel; [lia|].
  rewrite paginate_loop_step by done. cbn.
  set (req := mkRequest url (headers self) params).
  destruct (Hsrv (sent w) req) as (r & items & u & Hr & Hok & Hjson & Hnext).
  apply announces_next_elim in Hnext as (Hmore & Hu & Hne).
  rewrite Hw, Hr, bool_decide_false, Hjson, Hmore, Hu by done.
  unfold bound_reached. rewrite bool_decide_false by lia.
  case_bool_decide as Hstop.
  - exists [req]. cbn. rewrite Hr. cbn. rewrite Hjson. cbn.
    rewrite app_nil_r. split; [done|]. lia.
  - destruct (IH u None (all_items ++ items) (page_count + 1)
                (mkWorld srv (sent w ++ [req]))) as (reqs & Hrun & Hlen);
      [done|done|lia|lia|].
    exists (req :: reqs). rewrite Hrun. cbn. rewrite Hr. cbn.
    rewrite Hjson. cbn. rewrite <- !app_assoc. split; [done|]. lia.
Qed.

(** The same server walked without a bound: the loop is still running
    whenever the fuel is used up, one request per unit of fuel. *)
Lemma paginate_loop_unbounded srv self max_pages :
  always_more srv ->
  max_pages = None ∨ max_pages = Some 0 ->
  ∀ fuel url params all_items page_count w,
    remote w = srv -> url ≠ "" ->
    ∃ reqs,
      paginate_loop fuel self url params max_pages all_items page_count w
        = (mkWorld srv (sent w ++ reqs), OutOfFuel)
      ∧ length reqs = fuel.
Proof.
  intros Hsrv Hmp fuel.
  induction fuel as [|fuel IH]; intros url params all_items page_count w Hw Hurl.
  - exists []. rewrite paginate_loop_no_fuel, app_nil_r by done.
    destruct w; cbn in *; by subst.
  - rewrite paginate_loop_step by done. cbn.
    set (req := mkRequest url (headers self) params).
    destruct (Hsrv (sent w) req) as (r & items & u & Hr & Hok & Hjson & Hnext).
    apply announces_next_elim in Hnext as (Hmore & Hu & Hne).
    rewrite Hw, Hr, bool_decide_false, Hjson, Hmore, Hu by done.
    assert (bound_reached max_pages (page_count + 1) = false) as ->.
    { by destruct Hmp as [-> | ->]. }
    destruct (IH u None (all_items ++ items) (page_count + 1)
                (mkWorld srv (sent w ++ [req]))) as (reqs & Hrun & Hlen);
      [done|done|].
    exists (req :: reqs). rewrite Hrun. cbn. rewrite <- app_assoc.
    split; [done|]. by rewrite Hlen.
Qed.

(** Without a bound the walk ends exactly at the first page that announces
    no further page. *)
Lemma paginate_loop_serves srv self max_pages h url params pages :
  serves srv (headers self) h url params pages ->
  max_pages = None ∨ max_pages = Some 0 ->
  url ≠ "" ->
  ∀ fuel all_items page_count,
    (length pages <= fuel)%nat ->
    ∃ reqs,
      paginate_loop fuel self url params max_pages all_items page_count
        (mkWorld srv h)
        = (mkWorld srv (h ++ reqs), Return (all_items ++ concat pages))
      ∧ length reqs = length pages.
Proof.
  intros Hserves Hmp.
  induction Hserves as [h url params r items Hr Hok Hjson Hmore
                       |h url params r items u pages Hr Hok Hjson
                          Hmore Hrest IH];
    [apply no_further_results_elim in Hmore
    |apply announces_next_elim in Hmore as (Hmore & Hu & Hne)];
    intros Hurl fuel all_items page_count Hfuel;
    (destruct fuel as [|fuel]; [cbn in Hfuel; lia|]);
    rewrite paginate_loop_step by done; cbn;
    rewrite Hr, bool_decide_false, Hjson, Hmore by done.
  - exists [mkRequest url (headers self) params]. cbn. by rewrite app_nil_r.
  - rewrite Hu.
    assert (bound_reached max_pages (page_count + 1) = false) as ->.
    { by destruct Hmp as [-> | ->]. }
    destruct (IH Hne fuel (all_items ++ items) (page_count + 1))
      as (reqs & Hrun & Hlen); [cbn in Hfuel; lia|].
    exists (mkRequest url (headers self) params :: reqs).
    rewrite Hrun. cbn. rewrite <- !app_assoc. split; [done|]. by rewrite Hlen.
Qed.

(** A failing request ends the walk with its error, whatever had been
    accumulated; it is therefore the last request of the walk. *)
Lemma paginate_loop_failure fuel :
  ∀ self url params max_pages all_items page_count w reqs k req e,
    sent (paginate_loop fuel self url params max_pages all_items page_count w).1
      = sent w ++ reqs ->
    reqs !! k = Some req ->
    request_fails (remote w) (sent w ++ take k reqs) req e ->
    (paginate_loop fuel self url params max_pages all_items page_count w).2
      = Raise e
    ∧ length reqs = S k.
Proof.
  induction fuel as [|fuel IH];
    intros self url params max_pages all_items page_count w reqs k req e.
  - cbn. case_bool_decide; cbn; intros Hlog Hk;
      rewrite <- (app_nil_r (sent w)) in Hlog at 1;
      apply app_inv_head in Hlog; by subst.
  - destruct (decide (url = "")) as [->|Hurl].
    { rewrite paginate_loop_no_url. cbn. intros Hlog Hk.
      rewrite <- (app_nil_r (sent w)) in Hlog at 1.
      apply app_inv_head in Hlog. by subst. }
    rewrite paginate_loop_step by done. cbn.
    set (req0 := mkRequest url (headers self) params).
    set (w1 := mkWorld (remote w) (sent w ++ [req0])).
    (* every way of stopping after this single request *)
    assert (Hone : ∀ out : Outcome (list JSON),
      sent (w1, out).1 = sent w ++ reqs -> reqs !! k = Some req ->
      reqs = [req0] ∧ k = 0%nat ∧ req = req0).
    { intros out Hlog Hk. cbn in Hlog. apply app_inv_head in Hlog. subst reqs.
      destruct k as [|k]; cbn in Hk; [|done]. by injection Hk as <-. }
    unfold request_fails.
    destruct (remote w (sent w) req0) as [r|e0] eqn:Hr.
    2:{ intros Hlog Hk Hfail.
        destruct (Hone _ Hlog Hk) as (-> & -> & ->).
        cbn in Hfail. rewrite app_nil_r, Hr in Hfail. by subst. }
    case_bool_decide as Hstatus.
    { intros Hlog Hk Hfail.
      destruct (Hone _ Hlog Hk) as (-> & -> & ->).
      cbn in Hfail. rewrite app_nil_r, Hr in Hfail. by destruct Hfail as [_ ->]. }
    assert (Hstop : ∀ out : Outcome (list JSON),
      sent (w1, out).1 = sent w ++ reqs -> reqs !! k = Some req ->
      match remote w (sent w ++ take k reqs) req with
      | Responded r0 => 400 <= status_code r0 < 600 ∧ e = HTTPError r0
      | Failed e' => e = e'
      end -> (w1, out).2 = Raise e ∧ length reqs = S k).
    { intros out Hlog Hk Hfail.
      destruct (Hone _ Hlog Hk) as (-> & -> & ->).
      cbn in Hfail. rewrite app_nil_r, Hr in Hfail. by destruct Hfail. }
    destruct (json r) as [items|]; [|by apply Hstop].
    destruct (has_more r); [|by apply Hstop].
    destruct (next_url r) as [u|e0|]; [|by apply Hstop..].
    destruct (bound_reached _ _); [by apply Hstop|].
    destruct (paginate_loop_log fuel self u None max_pages (all_items ++ items)
                (page_count + 1) w1) as (reqs' & Hw' & _).
    intros Hlog Hk Hfail. rewrite Hw' in Hlog. cbn in Hlog.
    rewrite <- app_assoc in Hlog. apply app_inv_head in Hlog. subst reqs.
    destruct k as [|k].
    { cbn in Hk. injection Hk as <-. cbn in Hfail.
      rewrite app_nil_r, Hr in Hfail. by destruct Hfail. }
    cbn in Hk, Hfail.
    destruct (IH self u None max_pages (all_items ++ items) (page_count + 1)
                w1 reqs' k req e) as [Hout Hlen].
    + by rewrite Hw'.
    + done.
    + unfold request_fails. cbn. by rewrite <- app_assoc.
    + split; [done|]. cbn. by rewrite Hlen.
Qed.

Lemma endless_server_always_more : always_more endless_server.
Proof.
  intros h req. eexists _, [JNum (Z.of_nat (length h))], _.
  split; [reflexivity|]. split; [unfold accepted; cbn; lia|].
  split; [reflexivity|].
  eexists. split; [reflexivity|]. split; [reflexivity|].
  split; [reflexivity|]. done.
Qed.

(** C1. With [max_pages = N] for a positive [N], against a server whose
    every response carries a next link marked as having further results,
    the walk sends exactly [N] requests and returns the items of these [N]
    pages, concatenated in the order of the fetches. *)
Theorem max_pages_bounds_fetches self url params (N : Z) fuel w :
  0 < N -> (Z.to_nat N <= fuel)%nat -> url ≠ "" ->
  always_more (remote w) ->
  ∃ reqs,
    _get_paginated fuel self url params (Some N) w
      = (mkWorld (remote w) (sent w ++ reqs),
         Return (session_items (remote w) (sent w) reqs))
    ∧ length reqs = Z.to_nat N.
Proof.
  intros HN Hfuel Hurl Hsrv.
  destruct (paginate_loop_bounded (remote w) self N Hsrv fuel url params [] 0 w)
    as (reqs & Hrun & Hlen); [done|done|lia|by rewrite Z.sub_0_r|].
  exists reqs. rewrite Z.sub_0_r in Hlen. by split.
Qed.

(** [max_pages = 1]: a single fetch, although a next link was there. *)
Lemma max_pages_bounds_fetches_witness :
  (0 < 1 ∧ (Z.to_nat 1 <= 5)%nat ∧ events_url ≠ ""
   ∧ always_more (remote (fresh endless_server)))
  ∧ ∃ reqs,
      _get_paginated 5 sample_client events_url limit_100 (Some 1)
        (fresh endless_server)
        = (mkWorld endless_server ([] ++ reqs),
           Return (session_items endless_server [] reqs))
      ∧ length reqs = Z.to_nat 1.
Proof.
  split.
  - split; [lia|]. split; [cbn; lia|]. split; [done|].
    exact endless_server_always_more.
  - apply (max_pages_bounds_fetches sample_client events_url limit_100 1 5
             (fresh endless_server)).
    + lia.
    + cbn; lia.
    + done.
    + exact endless_server_always_more.
Defined.

(** C2. Whenever a request of a walk fails, be it the first or a later
    one, the walk ends there and its outcome is that error: no list is
    returned, whatever the pages before had contributed. *)
Theorem failed_page_discards_all fuel self url params max_pages w reqs k req e :
  sent (_get_paginated fuel self url params max_pages w).1 = sent w ++ reqs ->
  reqs !! k = Some req ->
  request_fails (remote w) (sent w ++ take k reqs) req e ->
  (_get_paginated fuel self url params max_pages w).2 = Raise e
  ∧ length reqs = S k.
Proof. apply paginate_loop_failure. Qed.

(** The third request fails with status 500; pages 1 and 2 are lost. *)
Lemma failed_page_discards_all_witness :
  (_get_paginated 9 sample_client events_url limit_100 None failing_world).2
    = Raise (HTTPError server_error)
  ∧ length [first_request;
            mkRequest (cursor_url 1) (headers sample_client) None;
            mkRequest (cursor_url 2) (headers sample_client) None] = 3%nat.
Proof.
  apply (failed_page_discards_all 9 sample_client events_url limit_100 None
           failing_world
           [first_request;
            mkRequest (cursor_url 1) (headers sample_client) None;
            mkRequest (cursor_url 2) (headers sample_client) None]
           2 (mkRequest (cursor_url 2) (headers sample_client) None)
           (HTTPError server_error)).
  - reflexivity.
  - reflexivity.
  - unfold request_fails. cbn. split; [lia|reflexivity].
Defined.

(** C4. When the first response carries no next link marked as having
    further results, the walk sends exactly one request, whatever
    [max_pages] is, and returns the items of that page (the empty list for an
    empty page). *)
Theorem single_fetch_without_next fuel self url params max_pages w r items :
  url ≠ "" ->
  remote w (sent w) (mkRequest url (headers self) params) = Responded r ->
  accepted r -> json r = Some items -> no_further_results r ->
  _get_paginated (S fuel) self url params max_pages w
    = (mkWorld (remote w) (sent w ++ [mkRequest url (headers self) params]),
       Return items).
Proof.
  intros Hurl Hr Hok Hjson Hno. unfold _get_paginated.
  rewrite paginate_loop_step by done. cbn.
  rewrite Hr, bool_decide_false, Hjson by done.
  by rewrite (no_further_results_elim r Hno).
Qed.

(** An empty first page without a link, under [max_pages = 7]. *)
Lemma single_fetch_without_next_witness :
  _get_paginated 1 sample_client events_url limit_100 (Some 7) empty_page_world
    = (mkWorld (remote empty_page_world) (sent empty_page_world ++ [first_request]),
       Return []).
Proof.
  apply (single_fetch_without_next 0 sample_client events_url limit_100
           (Some 7) empty_page_world (page_without_link []) []).
  - done.
  - reflexivity.
  - unfold accepted; cbn; lia.
  - reflexivity.
  - intros next Hnext. by vm_compute in Hnext.
Defined.

(** C7. With [max_pages] unset or 0 the counter never stops the walk:
    against a server that always announces a next page the loop is still
    running after any number of fetches, and against a server that serves
    [pages] it ends at the first page without a next link, after one fetch
    per page, with the items of all of them. *)
Theorem unbounded_without_max_pages self url params max_pages w :
  max_pages = None ∨ max_pages = Some 0 ->
  url ≠ "" ->
  (always_more (remote w) ->
   ∀ fuel, ∃ reqs,
     _get_paginated fuel self url params max_pages w
       = (mkWorld (remote w) (sent w ++ reqs), OutOfFuel)
     ∧ length reqs = fuel)
  ∧ (∀ pages,
       serves (remote w) (headers self) (sent w) url params pages ->
       ∀ fuel, (length pages <= fuel)%nat ->
       ∃ reqs,
         _get_paginated fuel self url params max_pages w
           = (mkWorld (remote w) (sent w ++ reqs), Return (concat pages))
         ∧ length reqs = length pages).
Proof.
  intros Hmp Hurl. split.
  - intros Hsrv fuel.
    by apply (paginate_loop_unbounded (remote w) self max_pages Hsrv Hmp).
  - intros pages Hserves fuel Hfuel.
    destruct (paginate_loop_serves (remote w) self max_pages (sent w) url
                params pages Hserves Hmp Hurl fuel [] 0 Hfuel)
      as (reqs & Hrun & Hlen).
    exists reqs. split; [|done]. destruct w. exact Hrun.
Qed.

Lemma two_page_session_serves :
  serves (remote two_page_world) (headers sample_client) (sent two_page_world)
    events_url limit_100
    [replicate 100 (object [("id", JStr "a")]);
     replicate 40 (object [("id", JStr "b")])].
Proof.
  eapply (serves_more _ _ _ _ _ (page_with_next _ 1) _ (cursor_url 1)).
  - reflexivity.
  - unfold accepted; cbn; lia.
  - reflexivity.
  - eexists. split; [reflexivity|]. split; [reflexivity|].
    split; [reflexivity|done].
  - eapply (serves_last _ _ _ _ _ (last_page _)).
    + reflexivity.
    + unfold accepted; cbn; lia.
    + reflexivity.
    + intros next Hnext. vm_compute in Hnext. injection Hnext as <-.
      by vm_compute.
Qed.

(** Two pages, the second without further results, walked with
    [max_pages = 0]. *)
Lemma unbounded_without_max_pages_witness :
  (Some 0 = None ∨ Some 0 = Some 0) ∧ events_url ≠ ""
  ∧ ∃ reqs,
      _get_paginated 2 sample_client events_url limit_100 (Some 0)
        two_page_world
        = (mkWorld (remote two_page_world) (sent two_page_world ++ reqs),
           Return (concat [replicate 100 (object [("id", JStr "a")]);
                           replicate 40 (object [("id", JStr "b")])]))
      ∧ length reqs = 2%nat.
Proof.
  split; [by right|]. split; [done|].
  destruct (unbounded_without_max_pages sample_client events_url limit_100
              (Some 0) two_page_world) as [_ Hserved]; [by right|done|].
  apply (Hserved _ two_page_session_serves 2%nat). cbn. lia.
Defined.

(** C9. The requests of one walk: the first one carries the caller's
    address and query parameters; every later one goes to the address of the
    next link of the response before it, carries no query parameters, and
    has the same headers (the authorisation among them) as the first. *)
Theorem only_first_request_carries_params fuel self url params max_pages w :
  ∃ reqs,
    (_get_paginated fuel self url params max_pages w).1
      = mkWorld (remote w) (sent w ++ reqs)
    ∧ match reqs with
      | [] => url = "" ∨ fuel = 0%nat
      | first :: rest =>
          first = mkRequest url (headers self) params
          ∧ Forall (λ req, req_params req = None
                           ∧ req_headers req = headers self) rest
          ∧ continuation_chain (remote w) (sent w) first rest
      end.
Proof.
  destruct (paginate_loop_log fuel self url params max_pages [] 0 w)
    as (reqs & Hw & Hshape).
  exists reqs. split; [done|].
  destruct reqs as [|first rest]; [done|].
  destruct Hshape as [-> Hchain]. split; [done|]. split; [|done].
  by apply continuation_chain_frame in Hchain.
Qed.

(** ** The request executor, on sample replies *)

(** Status 500: the error holds the response; one request was sent. *)
Lemma get_raises_on_error_status_witness :
  (_get sample_client events_url limit_100 server_error_world).1
    = mkWorld (remote server_error_world)
        (sent server_error_world ++ [first_request])
  ∧ (400 <= status_code server_error < 600 ->
     (_get sample_client events_url limit_100 server_error_world).2
       = Raise (HTTPError server_error))
  ∧ (¬ (400 <= status_code server_error < 600) ->
     (_get sample_client events_url limit_100 server_error_world).2
       = Return server_error)
  ∧ (200 <= status_code server_error < 300 ->
     (_get sample_client events_url limit_100 server_error_world).2
       = Return server_error).
Proof.
  apply (get_raises_on_error_status sample_client events_url limit_100
           server_error_world server_error).
  reflexivity.
Defined.

(** Status 304 lies outside the 2xx range, and [_get] returns the response
    all the same: no [HTTPError] is raised. *)
Lemma get_returns_not_modified :
  remote not_modified_world (sent not_modified_world)
    (mkRequest events_url (headers sample_client) None)
    = Responded not_modified
  ∧ ¬ (200 <= status_code not_modified < 300)
  ∧ (_get sample_client events_url None not_modified_world).2
    = Return not_modified
  ∧ (_get sample_client events_url None not_modified_world).2
    ≠ Raise (HTTPError not_modified).
Proof.
  split; [reflexivity|]. split; [cbn; lia|]. split; [reflexivity|].
  rewrite get_unfold. cbn. discriminate.
Qed.

(** ** Query composition *)

Section Composer.
Context `{!Runtime}.

Lemma append_date_read query_parts op d dt :
  date_read d dt ->
  append_date query_parts op d
  = Return (query_parts
            ++ option_list
                 ((λ dt, "firstSeen:" +:+ op +:+ isoformat dt +:+ "Z") <$> dt)).
Proof.
  unfold date_read, append_date.
  destruct (truthy d) as [s|].
  - intros [-> [x Hx]]. by rewrite Hx.
  - intros ->. cbn. by rewrite app_nil_r.
Qed.

Lemma append_date_unparsable query_parts op d s :
  truthy d = Some s -> fromisoformat s = None ->
  append_date query_parts op d = Raise ValueError.
Proof. unfold append_date. by intros -> ->. Qed.

Lemma date_read_unset d dt : date_read d dt -> (dt = None ↔ truthy d = None).
Proof.
  unfold date_read. destruct (truthy d) as [s|].
  - intros [_ [x ->]]. split; discriminate.
  - by intros ->.
Qed.

Lemma spec_query_absent environment start_at end_at raw_query :
  spec_query environment start_at end_at raw_query = None
  ↔ environment = None ∧ start_at = None ∧ end_at = None ∧ raw_query = None.
Proof.
  unfold spec_query, spec_fragments.
  destruct environment, start_at, end_at, raw_query; cbn;
    split; try done; intros (? & ? & ? & ?); done.
Qed.

(** C5. The query built by the command is the space-joined list of the
    fragments that are set, in the order environment, start date, end date,
    free text, each date as its ISO text followed by [Z]; it is absent
    exactly when none of the four is set. *)
Theorem build_query_composes args dstart dend :
  date_read (arg_start_at args) dstart ->
  date_read (arg_end_at args) dend ->
  build_query args
    = Return (spec_query (truthy (arg_environment args)) dstart dend
                (truthy (arg_query args)))
  ∧ (build_query args = Return None
     ↔ truthy (arg_environment args) = None
       ∧ truthy (arg_start_at args) = None
       ∧ truthy (arg_end_at args) = None
       ∧ truthy (arg_query args) = None).
Proof.
  intros Hstart Hend.
  assert (Hrun : build_query args
            = Return (spec_query (truthy (arg_environment args)) dstart dend
                        (truthy (arg_query args)))).
  { unfold build_query.
    rewrite (append_date_read _ _ _ _ Hstart). cbn.
    rewrite (append_date_read _ _ _ _ Hend). cbn.
    unfold spec_query, spec_fragments.
    by destruct (truthy (arg_environment args)), (truthy (arg_query args)),
      dstart, dend. }
  split; [done|].
  rewrite Hrun. split.
  - intros [= Hnone]. apply spec_query_absent in Hnone as (? & Hs & He & ?).
    apply (date_read_unset _ _ Hstart) in Hs.
    apply (date_read_unset _ _ Hend) in He. done.
  - intros (He & Hs & Hd & Hq). f_equal. apply spec_query_absent.
    apply (date_read_unset _ _ Hstart) in Hs.
    apply (date_read_unset _ _ Hend) in Hd. done.
Qed.

(** C8. A start or end date that is given and does not parse makes the
    command fail with [ValueError] while the query is being built: the world
    is unchanged, so no request has been sent. *)
Theorem malformed_date_fails_before_request args client w :
  (∃ s, truthy (arg_start_at args) = Some s ∧ fromisoformat s = None)
  ∨ (∃ s, truthy (arg_end_at args) = Some s ∧ fromisoformat s = None) ->
  cmd_fetch_issues args client w = (w, Raise ValueError).
Proof.
  intros Hbad.
  assert (Hquery : build_query args = Raise ValueError).
  { unfold build_query.
    destruct Hbad as [(s & Hs & Hnone)|(s & Hs & Hnone)].
    - by rewrite (append_date_unparsable _ _ _ s Hs Hnone).
    - destruct (append_date _ ">" _) as [parts|e|] eqn:Hstart; cbn.
      + by rewrite (append_date_unparsable _ _ _ s Hs Hnone).
      + unfold append_date in Hstart.
        repeat case_match; by simplify_eq.
      + unfold append_date in Hstart.
        repeat case_match; by simplify_eq. }
  unfold cmd_fetch_issues, bind, lift. by rewrite Hquery.
Qed.

End Composer.

(** The scenario of the specification: an environment and a free-text
    query. *)
Lemma build_query_composes_witness :
  (date_read (arg_start_at production_args) None
   ∧ date_read (arg_end_at production_args) None)
  ∧ build_query production_args
    = Return (Some "environment:production is:unresolved")
  ∧ (build_query production_args = Return None
     ↔ truthy (arg_environment production_args) = None
       ∧ truthy (arg_start_at production_args) = None
       ∧ truthy (arg_end_at production_args) = None
       ∧ truthy (arg_query production_args) = None).
Proof.
  split; [split; reflexivity|].
  apply (build_query_composes production_args None None); reflexivity.
Defined.

Example build_query_all_criteria :
  build_query all_criteria_args
  = Return (Some "environment:production firstSeen:>2024-01-01T00:00:00Z firstSeen:<2024-02-29T12:30:00Z is:unresolved").
Proof. reflexivity. Qed.

Example build_query_no_criteria : build_query plain_args = Return None.
Proof. reflexivity. Qed.

(** [--start-at yesterday]: no request reaches the server. *)
Lemma malformed_date_fails_before_request_witness :
  ((∃ s, truthy (arg_start_at bad_date_args) = Some s
         ∧ fromisoformat s = None)
   ∨ (∃ s, truthy (arg_end_at bad_date_args) = Some s
           ∧ fromisoformat s = None))
  ∧ cmd_fetch_issues bad_date_args sample_client (fresh endless_server)
    = (fresh endless_server, Raise ValueError).
Proof.
  assert (Hbad : (∃ s, truthy (arg_start_at bad_date_args) = Some s
                       ∧ fromisoformat s = None)
                 ∨ (∃ s, truthy (arg_end_at bad_date_args) = Some s
                         ∧ fromisoformat s = None)).
  { left. exists "yesterday". split; reflexivity. }
  split; [exact Hbad|].
  exact (malformed_date_fails_before_request bad_date_args sample_client
           (fresh endless_server) Hbad).
Defined.

(** ** The local text filter *)

Section Filter.
Context `{!Runtime}.

Lemma is_prefix_spec p s : is_prefix p s = true ↔ ∃ rest, s = p +:+ rest.
Proof.
  revert s. induction p as [|a p IH]; intros s; cbn.
  - split; [by exists s|done].
  - destruct s as [|b s]; cbn.
    + split; [done|]. by intros [rest ?].
    + rewrite andb_true_iff, bool_decide_eq_true, IH. split.
      * intros [-> [rest ->]]. by exists rest.
      * intros [rest [= -> ->]]. eauto.
Qed.

(** [contains needle hay] holds exactly when [needle] occurs in [hay]. *)
Lemma contains_spec needle hay :
  contains needle hay = true ↔ ∃ before after, hay = before +:+ needle +:+ after.
Proof.
  induction hay as [|c hay IH].
  - cbn. rewrite orb_false_r, is_prefix_spec. split.
    + intros [rest ->]. by exists "", rest.
    + intros (before & after & Heq). destruct before as [|b before]; [|done].
      by exists after.
  - cbn [contains]. rewrite orb_true_iff, is_prefix_spec, IH. split.
    + intros [[rest ->]|(before & after & ->)].
      * by exists "", rest.
      * by exists (String c before), after.
    + intros (before & after & Heq). destruct before as [|b before].
      * left. by exists after.
      * right. injection Heq as -> ->. by exists before, after.
Qed.

(** On an issue whose title and culprit are strings when present and whose
    metadata is an object when present, the filter answers, and it answers
    [True] exactly when the case-folded filter occurs in the case-folded
    title, culprit, metadata value or metadata type, a missing field
    counting as the empty string. *)
Lemma matches_text_filter_well_typed m text_filter :
  well_typed_issue (JObj m) ->
  matches_text_filter (JObj m) text_filter
  = Return (occurs_in_fields m text_filter).
Proof.
  unfold well_typed_issue, text_or_absent, matches_text_filter,
    occurs_in_fields, metadata_of, field_text.
  intros (Htitle & Hculprit & Hmeta). cbn.
  destruct (m !! "title") as [[]|]; try done;
    destruct (m !! "culprit") as [[]|]; try done;
    destruct (m !! "metadata") as [[| | | | |md]|]; try done; cbn;
    rewrite ?lookup_empty;
    try (destruct (md !! "value"), (md !! "type")); cbn;
    repeat (destruct (contains _ _); cbn; try done).
Qed.

(** The comprehension, when the filter answers on every issue: it keeps the
    issues on which the answer is [True]. *)
Lemma filter_issues_answers issues text_filter :
  Forall (λ issue, ∃ b, matches_text_filter issue text_filter = Return b)
    issues ->
  filter_issues issues text_filter
  = Return (List.filter
              (λ issue, returns_true (matches_text_filter issue text_filter))
              issues).
Proof.
  induction 1 as [|issue issues [b Hb] _ IH]; [done|].
  cbn. rewrite Hb, IH. cbn. by destruct b.
Qed.

Lemma filter_sublist {A} (f : A -> bool) (l : list A) :
  sublist (List.filter f l) l.
Proof.
  induction l as [|x l IH]; cbn; [constructor|].
  destruct (f x); by constructor.
Qed.

(** X11. For lists on which the filter answers everywhere: the result is
    the sublist of the issues that match, in their order, and filtering it
    again changes nothing. *)
Lemma filter_issues_subsequence issues text_filter :
  Forall (λ issue, ∃ b, matches_text_filter issue text_filter = Return b)
    issues ->
  ∃ kept,
    filter_issues issues text_filter = Return kept
    ∧ kept = List.filter
               (λ issue, returns_true (matches_text_filter issue text_filter))
               issues
    ∧ sublist kept issues
    ∧ filter_issues kept text_filter = Return kept.
Proof.
  intros Hall. eexists. split; [by apply filter_issues_answers|].
  split; [done|]. split; [apply filter_sublist|].
  rewrite filter_issues_answers.
  - f_equal. induction issues as [|issue issues IH]; [done|].
    apply Forall_cons in Hall as [_ Hall]. cbn.
    destruct (returns_true _) eqn:Hkeep; cbn; [|by apply IH].
    rewrite Hkeep. f_equal. by apply IH.
  - apply Forall_forall. intros issue Hin.
    apply list_elem_of_In, filter_In in Hin as [_ Hkeep].
    destruct (matches_text_filter issue text_filter) as [[]| |]; try done.
    by exists true.
Qed.

End Filter.

(** The scenario of the specification: of the two issues only the one with
    [null] in its title remains. *)
Example filter_issues_scenario :
  filter_issues [null_pointer_issue; timeout_issue] "null"
  = Return [null_pointer_issue].
Proof. reflexivity. Qed.

Example cmd_fetch_issues_scenario :
  (cmd_fetch_issues (filter_args "NULL") sample_client
     (issues_world [null_pointer_issue; timeout_issue])).2
  = Return [null_pointer_issue].
Proof. reflexivity. Qed.

(** C6 (where the code departs from it). On an issue whose culprit is the
    JSON [null], and whose metadata value contains the filter, the filter
    does not answer [True]: [issue.get('culprit', '')] is [None], and
    [None.lower()] raises [AttributeError]. *)
Theorem matches_text_filter_null_culprit :
  matches_text_filter null_culprit_issue "reset" = Raise AttributeError
  ∧ null_culprit_fields !! "culprit" = Some JNull
  ∧ contains (str_lower "reset")
      (str_lower (field_text (metadata_of null_culprit_fields) "value"))
    = true.
Proof. split; [reflexivity|]. split; reflexivity. Qed.

(** C10 (where the code departs from it). A list that holds an issue with a
    [null] culprit is not filtered at all: the comprehension raises, and
    the command reports the error and exits with status 1, although the
    first issue matches. *)
Theorem text_filter_aborts_on_null_culprit :
  matches_text_filter null_pointer_issue "null" = Return true
  ∧ filter_issues [null_pointer_issue; null_culprit_issue] "null"
    = Raise AttributeError
  ∧ (cmd_fetch_issues (filter_args "null") sample_client
       (issues_world [null_pointer_issue; null_culprit_issue])).2
    = Raise (SystemExit 1).
Proof. split; [reflexivity|]. split; reflexivity. Qed.

(** ** The scenarios of the pagination walker *)

(** [max_pages = 2]: page 1 with 100 events and a next link, page 2 with 40
    events and no further results; 140 events after 2 requests. *)
Example two_pages_scenario :
  let run := list_issue_events 9 sample_client "123" 100 true (Some 2)
               two_page_world in
  length (sent run.1) = 2%nat
  ∧ (∃ events, run.2 = Return events ∧ length events = 140%nat).
Proof. split; [reflexivity|]. eexists. split; reflexivity. Qed.

(** [max_pages = 1]: the next link of page 1 is never followed. *)
Example one_page_scenario :
  let run := list_issue_events 9 sample_client "123" 100 true (Some 1)
               two_page_world in
  length (sent run.1) = 1%nat
  ∧ (∃ events, run.2 = Return events ∧ length events = 100%nat).
Proof. split; [reflexivity|]. eexists. split; reflexivity. Qed.

(** Without a bound the walk against the endless server is still running
    after 25 requests. *)
Example endless_walk_runs_on :
  let run := _get_paginated 25 sample_client events_url limit_100 (Some 0)
               (fresh endless_server) in
  length (sent run.1) = 25%nat ∧ run.2 = OutOfFuel.
Proof. split; reflexivity. Qed.

(** ** The walker as [list_issue_events] calls it *)

Lemma events_url_not_empty self issue_id :
  base_url self +:+ "/issues/" +:+ issue_id +:+ "/events/" ≠ "".
Proof. by destruct (base_url self). Qed.

(** The address of the events endpoint is never empty, so the bound on the
    number of fetches holds for every paginated listing of events. *)
Lemma list_issue_events_bounded self issue_id limit (N : Z) fuel w :
  0 < N -> (Z.to_nat N <= fuel)%nat ->
  always_more (remote w) ->
  ∃ reqs,
    list_issue_events fuel self issue_id limit true (Some N) w
      = (mkWorld (remote w) (sent w ++ reqs),
         Return (session_items (remote w) (sent w) reqs))
    ∧ length reqs = Z.to_nat N.
Proof.
  intros HN Hfuel Hsrv. unfold list_issue_events, _get_paginated.
  destruct (paginate_loop_bounded (remote w) self N Hsrv fuel
              (base_url self +:+ "/issues/" +:+ issue_id +:+ "/events/")
              (Some {[ "limit" := JNum limit ]}) [] 0 w)
    as (reqs & Hrun & Hlen);
    [done|apply events_url_not_empty|lia|by rewrite Z.sub_0_r|].
  exists reqs. rewrite Z.sub_0_r in Hlen. by split.
Qed.

(** Only the first request of a paginated listing carries the page-size
    limit. *)
Lemma list_issue_events_limit self issue_id limit max_pages fuel w :
  ∃ reqs,
    (list_issue_events fuel self issue_id limit true max_pages w).1
      = mkWorld (remote w) (sent w ++ reqs)
    ∧ match reqs with
      | [] => fuel = 0%nat
      | first :: rest =>
          req_params first = Some {[ "limit" := JNum limit ]}
          ∧ Forall (λ req, req_params req = None) rest
      end.
Proof.
  unfold list_issue_events, _get_paginated.
  destruct (paginate_loop_log fuel self
              (base_url self +:+ "/issues/" +:+ issue_id +:+ "/events/")
              (Some {[ "limit" := JNum limit ]}) max_pages [] 0 w)
    as (reqs & Hw & Hshape).
  exists reqs. split; [done|].
  destruct reqs as [|first rest].
  - destruct Hshape as [Hempty|]; [|done].
    by apply events_url_not_empty in Hempty.
  - destruct Hshape as [-> Hchain]. split; [done|].
    apply continuation_chain_frame in Hchain.
    eapply Forall_impl; [done|]. by intros req [? _].
Qed.

(** ** More about the pagination walker *)

Lemma next_url_answers r : next_url r ≠ OutOfFuel.
Proof. unfold next_url. by repeat case_match. Qed.

Lemma bound_not_reached n page_count :
  n ≠ 0 -> bound_reached (Some n) page_count = false -> page_count < n.
Proof.
  intros Hn. unfold bound_reached. rewrite bool_decide_false by done.
  intros Hle%bool_decide_eq_false. lia.
Qed.

(** Against any server whatsoever, a bound [n] other than 0 caps the number
    of requests, and given that much fuel the loop is over. *)
Lemma paginate_loop_bound fuel :
  ∀ self url params n all_items page_count w,
    n ≠ 0 ->
    ∃ reqs,
      (paginate_loop fuel self url params (Some n) all_items page_count w).1
        = mkWorld (remote w) (sent w ++ reqs)
      ∧ (length reqs <= Z.to_nat (Z.max 1 (n - page_count)))%nat
      ∧ ((Z.to_nat (Z.max 1 (n - page_count)) <= fuel)%nat ->
         (paginate_loop fuel self url params (Some n) all_items page_count w).2
         ≠ OutOfFuel).
Proof.
  induction fuel as [|fuel IH]; intros self url params n all_items page_count w Hn.
  - exists []. rewrite app_nil_r. split; [|split; [cbn; lia|lia]].
    cbn. case_bool_decide; by destruct w.
  - destruct (decide (url = "")) as [->|Hurl].
    { exists []. rewrite paginate_loop_no_url, app_nil_r.
      split; [by destruct w|]. split; [cbn; lia|done]. }
    rewrite paginate_loop_step by done. cbv zeta.
    set (req := mkRequest url (headers self) params).
    assert (Hone : ∀ out : Outcome (list JSON), out ≠ OutOfFuel ->
      ∃ reqs,
        (mkWorld (remote w) (sent w ++ [req]), out).1
          = mkWorld (remote w) (sent w ++ reqs)
        ∧ (length reqs <= Z.to_nat (Z.max 1 (n - page_count)))%nat
        ∧ ((Z.to_nat (Z.max 1 (n - page_count)) <= S fuel)%nat ->
           (mkWorld (remote w) (sent w ++ [req]), out).2 ≠ OutOfFuel)).
    { intros out Hout. exists [req]. split; [done|]. split; [cbn; lia|done]. }
    destruct (remote w (sent w) req) as [r|e]; [|by apply Hone].
    case_bool_decide; [by apply Hone|].
    destruct (json r) as [items|]; [|by apply Hone].
    destruct (has_more r); [|by apply Hone].
    pose proof (next_url_answers r) as Hnext.
    destruct (next_url r) as [u|e|]; [|by apply Hone|done].
    destruct (bound_reached (Some n) (page_count + 1)) eqn:Hbound;
      [by apply Hone|].
    apply bound_not_reached in Hbound; [|done].
    destruct (IH self u None n (all_items ++ items) (page_count + 1)
                (mkWorld (remote w) (sent w ++ [req])) Hn)
      as (reqs & Hw & Hlen & Hend).
    exists (req :: reqs). rewrite Hw. cbn. rewrite <- app_assoc.
    split; [done|]. split; [lia|].
    intros Hfuel. apply Hend. lia.
Qed.

(** X1. Whatever the server does, [max_pages = n] with [n] other than 0 is
    an upper bound on the requests of a walk ([1] when [n] is negative), and
    with that much fuel the walk has ended. *)
Theorem max_pages_caps_requests fuel self url params n w :
  n ≠ 0 ->
  ∃ reqs,
    (_get_paginated fuel self url params (Some n) w).1
      = mkWorld (remote w) (sent w ++ reqs)
    ∧ (length reqs <= Z.to_nat (Z.max 1 n))%nat
    ∧ ((Z.to_nat (Z.max 1 n) <= fuel)%nat ->
       (_get_paginated fuel self url params (Some n) w).2 ≠ OutOfFuel).
Proof.
  intros Hn.
  destruct (paginate_loop_bound fuel self url params n [] 0 w Hn)
    as (reqs & Hw & Hlen & Hend).
  rewrite Z.sub_0_r in Hlen, Hend. by exists reqs.
Qed.

Lemma max_pages_caps_requests_witness :
  2 ≠ 0
  ∧ ∃ reqs,
      (_get_paginated 9 sample_client events_url limit_100 (Some 2)
         failing_world).1
        = mkWorld (remote failing_world) (sent failing_world ++ reqs)
      ∧ (length reqs <= Z.to_nat (Z.max 1 2))%nat
      ∧ ((Z.to_nat (Z.max 1 2) <= 9)%nat ->
         (_get_paginated 9 sample_client events_url limit_100 (Some 2)
            failing_world).2 ≠ OutOfFuel).
Proof.
  split; [lia|].
  apply (max_pages_caps_requests 9 sample_client events_url limit_100 2
           failing_world).
  lia.
Defined.




(** A bounded walk over a server that serves [pages]: it stops at the bound
    or at the last page, whichever comes first. *)
Lemma paginate_loop_serves_bounded srv self N h url params pages :
  serves srv (headers self) h url params pages ->
  url ≠ "" ->
  ∀ fuel all_items page_count,
    0 <= page_count < N ->
    (length pages `min` Z.to_nat (N - page_count) <= fuel)%nat ->
    ∃ reqs,
      paginate_loop fuel self url params (Some N) all_items page_count
        (mkWorld srv h)
        = (mkWorld srv (h ++ reqs),
           Return (all_items
                   ++ concat (take (Z.to_nat (N - page_count)) pages)))
      ∧ length reqs = (length pages `min` Z.to_nat (N - page_count))%nat.
Proof.
  intros Hserves.
  induction Hserves as [h url params r items Hr Hok Hjson Hmore
                       |h url params r items u pages Hr Hok Hjson
                          Hmore Hrest IH];
    [apply no_further_results_elim in Hmore
    |apply announces_next_elim in Hmore as (Hmore & Hu & Hne)];
    intros Hurl fuel all_items page_count Hpc Hfuel;
    (destruct (Z.to_nat (N - page_count)) as [|k] eqn:Hk; [lia|]);
    (destruct fuel as [|fuel]; [cbn in Hfuel; lia|]);
    rewrite paginate_loop_step by done; cbv zeta; cbn [remote sent];
    rewrite Hr, bool_decide_false, Hjson, Hmore by done.
  - exists [mkRequest url (headers self) params]. cbn.
    by rewrite take_nil, !app_nil_r.
  - rewrite Hu. unfold bound_reached. rewrite bool_decide_false by lia.
    case_bool_decide as Hstop.
    + exists [mkRequest url (headers self) params].
      assert (k = 0%nat) as -> by lia. cbn.
      rewrite take_0, !app_nil_r. split; [done|]. lia.
    + destruct (IH Hne fuel (all_items ++ items) (page_count + 1))
        as (reqs & Hrun & Hlen); [lia|cbn in Hfuel; lia|].
      exists (mkRequest url (headers self) params :: reqs).
      rewrite Hrun. replace (Z.to_nat (N - (page_count + 1))) with k by lia.
      replace (Z.to_nat (N - (page_count + 1))) with k in Hlen by lia.
      cbn. rewrite <- !app_assoc. split; [done|]. by rewrite Hlen.
Qed.

(** X3. With [max_pages = N] for a positive [N], against a server that
    serves the pages [pages] (the last one without further results), the
    walk fetches the first [N] pages, or all of them when there are fewer,
    and returns exactly their items. *)
Theorem bounded_walk_takes_first_pages self url params (N : Z) fuel w pages :
  0 < N -> url ≠ "" ->
  serves (remote w) (headers self) (sent w) url params pages ->
  (length pages `min` Z.to_nat N <= fuel)%nat ->
  ∃ reqs,
    _get_paginated fuel self url params (Some N) w
      = (mkWorld (remote w) (sent w ++ reqs),
         Return (concat (take (Z.to_nat N) pages)))
    ∧ length reqs = (length pages `min` Z.to_nat N)%nat.
Proof.
  intros HN Hurl Hserves Hfuel. unfold _get_paginated.
  destruct (paginate_loop_serves_bounded (remote w) self N (sent w) url params
              pages Hserves Hurl fuel [] 0)
    as (reqs & Hrun & Hlen); [lia|by rewrite Z.sub_0_r|].
  rewrite Z.sub_0_r in Hrun, Hlen.
  exists reqs. split; [|done]. destruct w. exact Hrun.
Qed.

Lemma three_page_session_serves :
  serves (remote three_page_world) (headers sample_client)
    (sent three_page_world) events_url limit_100 three_pages.
Proof.
  eapply (serves_more _ _ _ _ _ (page_with_next _ 1) _ (cursor_url 1));
    [reflexivity|unfold accepted; cbn; lia|reflexivity
    |eexists; split; [reflexivity|]; split; [reflexivity|];
     split; [reflexivity|done]|].
  eapply (serves_more _ _ _ _ _ (page_with_next _ 2) _ (cursor_url 2));
    [reflexivity|unfold accepted; cbn; lia|reflexivity
    |eexists; split; [reflexivity|]; split; [reflexivity|];
     split; [reflexivity|done]|].
  eapply (serves_last _ _ _ _ _ (last_page _));
    [reflexivity|unfold accepted; cbn; lia|reflexivity|].
  intros next Hnext. vm_compute in Hnext. injection Hnext as <-.
  by vm_compute.
Qed.

(** Three pages on the server, [max_pages = 2]: two requests, the items of
    the first two pages. *)
Lemma bounded_walk_takes_first_pages_witness :
  (0 < 2 ∧ events_url ≠ "" ∧ (length three_pages `min` Z.to_nat 2 <= 9)%nat)
  ∧ ∃ reqs,
      _get_paginated 9 sample_client events_url limit_100 (Some 2)
        three_page_world
        = (mkWorld (remote three_page_world) (sent three_page_world ++ reqs),
           Return [JNum 1; JNum 2; JNum 3])
      ∧ length reqs = 2%nat.
Proof.
  split; [split; [lia|]; split; [done|vm_compute; lia]|].
  apply (bounded_walk_takes_first_pages sample_client events_url limit_100 2 9
           three_page_world three_pages).
  - lia.
  - done.
  - exact three_page_session_serves.
  - vm_compute. lia.
Defined.

(** X4. The loop runs [while url:]. Called with an empty address, the
    walker sends nothing and returns the empty list. A next link that is
    marked as having further results but whose address is empty ends the
    walk after that page, with its items, whatever [max_pages] is. *)
Theorem empty_address_ends_walk fuel self url params max_pages w r items next :
  url ≠ "" ->
  remote w (sent w) (mkRequest url (headers self) params) = Responded r ->
  accepted r -> json r = Some items ->
  links r !! "next" = Some next ->
  next !! "results" = Some "true" -> next !! "url" = Some "" ->
  _get_paginated fuel self "" params max_pages w = (w, Return [])
  ∧ _get_paginated (S fuel) self url params max_pages w
    = (mkWorld (remote w) (sent w ++ [mkRequest url (headers self) params]),
       Return items).
Proof.
  intros Hurl Hr Hok Hjson Hnext Hres Hu. unfold _get_paginated.
  split; [apply paginate_loop_no_url|].
  rewrite paginate_loop_step by done. cbv zeta.
  rewrite Hr, bool_decide_false, Hjson by done.
  unfold has_more, next_url. rewrite Hnext, Hu, bool_decide_true by done.
  rewrite paginate_loop_no_url. cbn. by destruct (bound_reached _ _).
Qed.

Lemma empty_address_ends_walk_witness :
  _get_paginated 4 sample_client "" limit_100 None empty_next_world
    = (empty_next_world, Return [])
  ∧ _get_paginated 5 sample_client events_url limit_100 None empty_next_world
    = (mkWorld (remote empty_next_world)
         (sent empty_next_world ++ [first_request]),
       Return [JNum 1; JNum 2]).
Proof.
  apply (empty_address_ends_walk 4 sample_client events_url limit_100 None
           empty_next_world (page_with_empty_next [JNum 1; JNum 2])
           [JNum 1; JNum 2]
           {[ "url" := ""; "results" := "true"; "rel" := "next" ]});
    done || reflexivity || (unfold accepted; cbn; lia).
Defined.

(** X5. Every request of a walk by a client that [__init__] has built
    carries the bearer token of the client and the JSON content type. *)
Theorem session_carries_bearer_token fuel token org base url params max_pages w :
  ∃ reqs,
    (_get_paginated fuel (SentryClient_init token org base) url params
       max_pages w).1
      = mkWorld (remote w) (sent w ++ reqs)
    ∧ Forall (λ req,
        req_headers req !! "Authorization" = Some ("Bearer " +:+ token)
        ∧ req_headers req !! "Content-Type" = Some "application/json") reqs.
Proof.
  destruct (paginate_loop_log fuel (SentryClient_init token org base) url
              params max_pages [] 0 w) as (reqs & Hw & Hshape).
  exists reqs. split; [done|].
  destruct reqs as [|first rest]; [done|].
  destruct Hshape as [-> Hchain].
  apply continuation_chain_frame in Hchain.
  constructor; [done|].
  eapply Forall_impl; [done|]. cbn. by intros req [_ ->].
Qed.

(** ** Listing events and issues *)

Lemma get_then_json_unfold self url params w :
  (response <- _get self url params ;; lift (response_json response)) w =
    (mkWorld (remote w) (sent w ++ [mkRequest url (headers self) params]),
     match remote w (sent w) (mkRequest url (headers self) params) with
     | Failed e => Raise e
     | Responded r =>
         if bool_decide (400 <= status_code r < 600)
         then Raise (HTTPError r) else response_json r
     end).
Proof.
  unfold bind at 1. rewrite get_unfold. cbn.
  destruct (remote w _ _) as [r|e]; [|done].
  by case_bool_decide.
Qed.



Lemma list_issues_unfold self project_slug stats_period limit sort query w :
  list_issues self (Some project_slug) stats_period limit sort query w =
    let params : gmap string JSON :=
      <["statsPeriod" := JStr stats_period]>
        (<["limit" := JNum limit]> (<["sort" := JStr sort]> ∅)) in
    let params :=
      match truthy query with
      | Some q => <["query" := JStr q]> params
      | None => params
      end in
    let req := mkRequest (issues_url self project_slug) (headers self)
                 (Some params) in
    (mkWorld (remote w) (sent w ++ [req]),
     match remote w (sent w) req with
     | Failed e => Raise e
     | Responded r =>
         if bool_decide (400 <= status_code r < 600)
         then Raise (HTTPError r) else response_json r
     end).
Proof.
  unfold list_issues. rewrite get_then_json_unfold. unfold issues_url, truthy.
  by case_bool_decide.
Qed.

(** ** The command [fetch-issues] *)

Set Warnings "-clear-no-such-hyp".

Section FetchIssues.
Context `{!Runtime}.

Lemma truthy_not_empty x s : truthy x = Some s -> s ≠ "".
Proof.
  unfold truthy. destruct x as [s'|]; [|done].
  case_bool_decide; [done|]. by intros [= <-].
Qed.

Lemma truthy_idemp x : truthy (truthy x) = truthy x.
Proof.
  destruct (truthy x) as [s|] eqn:Hx; [|done].
  apply truthy_not_empty in Hx. unfold truthy. by rewrite bool_decide_false.
Qed.

Lemma concat_not_empty sep part parts :
  part ≠ "" -> String.concat sep (part :: parts) ≠ "".
Proof. destruct part, parts; done. Qed.

(** The composed query is never the empty string, so [list_issues] passes
    it on whenever there is one. *)
Lemma spec_query_truthy environment dstart dend raw_query :
  truthy (spec_query (truthy environment) dstart dend (truthy raw_query))
  = spec_query (truthy environment) dstart dend (truthy raw_query).
Proof.
  unfold spec_query, spec_fragments.
  destruct (truthy environment) as [e|] eqn:He,
    (truthy raw_query) as [q|] eqn:Hq, dstart, dend; cbn; try done.
  all: try (apply truthy_not_empty in Hq; unfold truthy;
            by rewrite bool_decide_false).
Qed.

Lemma build_query_reads args dstart dend :
  date_read (arg_start_at args) dstart ->
  date_read (arg_end_at args) dend ->
  build_query args
  = Return (spec_query (truthy (arg_environment args)) dstart dend
              (truthy (arg_query args))).
Proof.
  intros Hstart Hend. unfold build_query.
  rewrite (append_date_read _ _ _ _ Hstart). cbn.
  rewrite (append_date_read _ _ _ _ Hend). cbn.
  unfold spec_query, spec_fragments.
  by destruct (truthy (arg_environment args)), (truthy (arg_query args)),
    dstart, dend.
Qed.

Lemma build_query_outcomes args :
  (∃ q, build_query args = Return q) ∨ build_query args = Raise ValueError.
Proof.
  unfold build_query, append_date.
  destruct (truthy (arg_start_at args)) as [s|];
    [destruct (fromisoformat s); [|by right]|];
    (destruct (truthy (arg_end_at args)) as [s'|];
     [destruct (fromisoformat s'); [|by right]|]);
    left; eauto.
Qed.

(** What the command does once the query is there. *)
Lemma cmd_fetch_issues_unfold args client w query :
  build_query args = Return query ->
  cmd_fetch_issues args client w =
    let params : gmap string JSON :=
      <["statsPeriod" := JStr (default "24h" (truthy (arg_stats_period args)))]>
        (<["limit" := JNum (arg_limit args)]>
           (<["sort" := JStr (arg_sort args)]> ∅)) in
    let params :=
      match truthy query with
      | Some q => <["query" := JStr q]> params
      | None => params
      end in
    let req := mkRequest (issues_url client (arg_project args))
                 (headers client) (Some params) in
    let w1 := mkWorld (remote w) (sent w ++ [req]) in
    match remote w (sent w) req with
    | Failed (SystemExit c) => (w1, Raise (SystemExit c))
    | Failed _ => (w1, Raise (SystemExit 1))
    | Responded r =>
        if bool_decide (400 <= status_code r < 600)
        then (w1, Raise (SystemExit 1))
        else
          match json r with
          | None => (w1, Raise (SystemExit 1))
          | Some issues =>
              match truthy (arg_text_filter args) with
              | None => (w1, Return issues)
              | Some text_filter =>
                  match filter_issues issues text_filter with
                  | Return kept => (w1, Return kept)
                  | Raise (SystemExit c) => (w1, Raise (SystemExit c))
                  | Raise _ => (w1, Raise (SystemExit 1))
                  | OutOfFuel => (w1, OutOfFuel)
                  end
              end
          end
    end.
Proof.
  intros Hquery. unfold cmd_fetch_issues. unfold bind at 1, lift at 1.
  rewrite Hquery. unfold try_except. unfold bind at 1.
  rewrite list_issues_unfold. cbv zeta.
  set (req := mkRequest _ _ _).
  destruct (remote w (sent w) req) as [r|e]; [|by destruct e].
  case_bool_decide; [done|].
  unfold response_json. destruct (json r) as [issues|]; [|done].
  destruct (truthy (arg_text_filter args)) as [text_filter|]; [|done].
  unfold lift. by destruct (filter_issues issues text_filter) as [kept|[]|].
Qed.

(** The filter raises nothing but [AttributeError], and always ends. *)
Lemma matches_text_filter_outcomes issue text_filter :
  (∃ b, matches_text_filter issue text_filter = Return b)
  ∨ matches_text_filter issue text_filter = Raise AttributeError.
Proof.
  unfold matches_text_filter, dict_get, lower_method.
  repeat (case_match; cbn; eauto).
Qed.

Lemma filter_issues_outcomes issues text_filter :
  (∃ kept, filter_issues issues text_filter = Return kept)
  ∨ filter_issues issues text_filter = Raise AttributeError.
Proof.
  induction issues as [|issue issues IH]; cbn; [eauto|].
  destruct (matches_text_filter_outcomes issue text_filter) as [[b ->]| ->];
    cbn; [|by right].
  destruct IH as [[kept ->]| ->]; cbn; eauto.
Qed.

(** X7. When the dates read, [fetch-issues] sends exactly one request. It
    goes to the issues of the project (of the whole organisation when the
    project is the empty string), and its parameters are the limit, the sort
    order, the statistics period ([24h] unless one is given) and the
    composed query; without any criterion there is no [query] parameter at
    all. *)
Theorem fetch_issues_sends_one_request args client w dstart dend :
  date_read (arg_start_at args) dstart ->
  date_read (arg_end_at args) dend ->
  ∃ params,
    (cmd_fetch_issues args client w).1
      = mkWorld (remote w)
          (sent w ++ [mkRequest (issues_url client (arg_project args))
                        (headers client) (Some params)])
    ∧ params !! "query"
      = JStr <$> spec_query (truthy (arg_environment args)) dstart dend
                   (truthy (arg_query args))
    ∧ params !! "statsPeriod"
      = Some (JStr (default "24h" (truthy (arg_stats_period args))))
    ∧ params !! "limit" = Some (JNum (arg_limit args))
    ∧ params !! "sort" = Some (JStr (arg_sort args))
    ∧ dom params ⊆ {["query"; "statsPeriod"; "limit"; "sort"]}.
Proof.
  intros Hstart Hend.
  rewrite (cmd_fetch_issues_unfold _ _ _ _ (build_query_reads _ _ _ Hstart Hend)).
  cbv zeta. rewrite spec_query_truthy.
  destruct (spec_query _ _ _ _) as [q|]; cbn;
    (eexists; split;
     [destruct (remote w (sent w) _) as [r|[]]; try reflexivity;
      destruct (bool_decide _); try reflexivity;
      destruct (json r); try reflexivity;
      destruct (truthy (arg_text_filter args)); try reflexivity;
      by destruct (filter_issues _ _) as [?|[]|]|]);
    repeat split;
    try (by repeat (rewrite lookup_insert_eq
                    || (rewrite lookup_insert_ne by done)
                    || rewrite lookup_empty));
    rewrite !dom_insert_L, dom_empty_L; set_solver.
Qed.

(** X8. [fetch-issues] lets no error of the request through: when the
    request fails, by its status or in [requests] itself, or the body does
    not decode, the command ends with exit status 1 after that single
    request; and whatever happens, it ends with a list, with [ValueError]
    from a date, or with exit status 1. *)
Theorem fetch_issues_exit_status args client w :
  (∀ h req c, remote w h req ≠ Failed (SystemExit c)) ->
  ((∃ issues, (cmd_fetch_issues args client w).2 = Return issues)
   ∨ (cmd_fetch_issues args client w).2 = Raise ValueError
   ∨ (cmd_fetch_issues args client w).2 = Raise (SystemExit 1))
  ∧ (∀ query params e,
       build_query args = Return query ->
       params = (match truthy query with
                 | Some q => <["query" := JStr q]>
                 | None => id
                 end)
                  (<["statsPeriod" :=
                       JStr (default "24h" (truthy (arg_stats_period args)))]>
                     (<["limit" := JNum (arg_limit args)]>
                        (<["sort" := JStr (arg_sort args)]> ∅))) ->
       request_fails (remote w) (sent w)
         (mkRequest (issues_url client (arg_project args)) (headers client)
            (Some params)) e ->
       cmd_fetch_issues args client w
       = (mkWorld (remote w)
            (sent w ++ [mkRequest (issues_url client (arg_project args))
                          (headers client) (Some params)]),
          Raise (SystemExit 1))).
Proof.
  intros Hsrv. split.
  - destruct (build_query_outcomes args) as [[query Hquery]|Hquery].
    + rewrite (cmd_fetch_issues_unfold _ _ _ _ Hquery). cbv zeta.
      set (req := mkRequest _ _ _).
      pose proof (Hsrv (sent w) req) as Hreq.
      destruct (remote w (sent w) req) as [r|e].
      * case_bool_decide; [by right; right|].
        destruct (json r) as [issues|]; [|by right; right].
        destruct (truthy (arg_text_filter args)) as [text_filter|];
          [|left; by eexists].
        destruct (filter_issues_outcomes issues text_filter) as [[kept ->]| ->];
          [left; by eexists|by right; right].
      * destruct e; try (by right; right). by destruct (Hreq code).
    + right; left. unfold cmd_fetch_issues, bind, lift. by rewrite Hquery.
  - intros query params e Hquery -> Hfail.
    rewrite (cmd_fetch_issues_unfold _ _ _ _ Hquery). cbv zeta.
    unfold request_fails in Hfail.
    assert (Hparams :
      (match truthy query with
       | Some q =>
           <["query" := JStr q]>
             (<["statsPeriod" :=
                  JStr (default "24h" (truthy (arg_stats_period args)))]>
                (<["limit" := JNum (arg_limit args)]>
                   (<["sort" := JStr (arg_sort args)]> (∅ : gmap string JSON))))
       | None =>
           <["statsPeriod" :=
               JStr (default "24h" (truthy (arg_stats_period args)))]>
             (<["limit" := JNum (arg_limit args)]>
                (<["sort" := JStr (arg_sort args)]> ∅))
       end)
      = (match truthy query with
         | Some q => <["query" := JStr q]>
         | None => id
         end)
          (<["statsPeriod" :=
               JStr (default "24h" (truthy (arg_stats_period args)))]>
             (<["limit" := JNum (arg_limit args)]>
                (<["sort" := JStr (arg_sort args)]> ∅)))).
    { by destruct (truthy query). }
    rewrite Hparams.
    set (req := mkRequest _ _ _) in *.
    pose proof (Hsrv (sent w) req) as Hreq.
    destruct (remote w (sent w) req) as [r|e'].
    + destruct Hfail as [Hstatus _]. by rewrite bool_decide_true.
    + destruct e'; try done. by destruct (Hreq code).
Qed.

(** X9. When the request succeeds, [fetch-issues] hands on the issues of
    that one response: all of them when no text filter is given (an empty
    one counts as none), and otherwise, when the filter answers on each of
    them, those it matches, in their order. *)
Theorem fetch_issues_result args client w dstart dend query r issues :
  date_read (arg_start_at args) dstart ->
  date_read (arg_end_at args) dend ->
  query = spec_query (truthy (arg_environment args)) dstart dend
            (truthy (arg_query args)) ->
  remote w (sent w)
    (mkRequest (issues_url client (arg_project args)) (headers client)
       (Some ((match query with
               | Some q => <["query" := JStr q]>
               | None => id
               end)
                (<["statsPeriod" :=
                     JStr (default "24h" (truthy (arg_stats_period args)))]>
                   (<["limit" := JNum (arg_limit args)]>
                      (<["sort" := JStr (arg_sort args)]> ∅))))))
    = Responded r ->
  accepted r -> json r = Some issues ->
  (truthy (arg_text_filter args) = None ->
   (cmd_fetch_issues args client w).2 = Return issues)
  ∧ (∀ text_filter,
       truthy (arg_text_filter args) = Some text_filter ->
       Forall (λ issue, ∃ b, matches_text_filter issue text_filter = Return b)
         issues ->
       (cmd_fetch_issues args client w).2
       = Return (List.filter
                   (λ issue,
                      returns_true (matches_text_filter issue text_filter))
                   issues)).
Proof.
  intros Hstart Hend -> Hr Hok Hjson.
  rewrite (cmd_fetch_issues_unfold _ _ _ _ (build_query_reads _ _ _ Hstart Hend)).
  cbv zeta. rewrite spec_query_truthy.
  assert (Hrun :
    remote w (sent w)
      (mkRequest (issues_url client (arg_project args)) (headers client)
         (Some (match spec_query (truthy (arg_environment args)) dstart dend
                        (truthy (arg_query args)) with
                | Some q =>
                    <["query" := JStr q]>
                      (<["statsPeriod" :=
                           JStr (default "24h"
                                   (truthy (arg_stats_period args)))]>
                         (<["limit" := JNum (arg_limit args)]>
                            (<["sort" := JStr (arg_sort args)]>
                               (∅ : gmap string JSON))))
                | None =>
                    <["statsPeriod" :=
                        JStr (default "24h" (truthy (arg_stats_period args)))]>
                      (<["limit" := JNum (arg_limit args)]>
                         (<["sort" := JStr (arg_sort args)]> ∅))
                end)))
    = Responded r).
  { rewrite <- Hr. by destruct (spec_query _ _ _ _). }
  rewrite Hrun, bool_decide_false, Hjson by done.
  split.
  - by intros ->.
  - intros text_filter -> Hall.
    by rewrite (filter_issues_answers _ _ Hall).
Qed.

End FetchIssues.

(** [fetch-issues -p billing-service -e production -q is:unresolved] *)
Lemma fetch_issues_sends_one_request_witness :
  (date_read (arg_start_at production_args) None
   ∧ date_read (arg_end_at production_args) None)
  ∧ ∃ params,
      (cmd_fetch_issues production_args sample_client server_error_world).1
        = mkWorld (remote server_error_world)
            (sent server_error_world
             ++ [mkRequest (issues_url sample_client "billing-service")
                   (headers sample_client) (Some params)])
      ∧ params !! "query" = Some (JStr "environment:production is:unresolved")
      ∧ params !! "statsPeriod" = Some (JStr "24h")
      ∧ params !! "limit" = Some (JNum 50)
      ∧ params !! "sort" = Some (JStr "date")
      ∧ dom params ⊆ {["query"; "statsPeriod"; "limit"; "sort"]}.
Proof.
  split; [split; reflexivity|].
  apply (fetch_issues_sends_one_request production_args sample_client
           server_error_world None None); reflexivity.
Defined.

Lemma server_error_world_ordinary h req c :
  remote server_error_world h req ≠ Failed (SystemExit c).
Proof. cbn. unfold scripted_server. by destruct (length h) as [|[|n]]. Qed.

(** The server answers 500: exit status 1 after one request. *)
Lemma fetch_issues_exit_status_witness :
  (∀ h req c, remote server_error_world h req ≠ Failed (SystemExit c))
  ∧ (cmd_fetch_issues production_args sample_client server_error_world).2
    = Raise (SystemExit 1).
Proof.
  split; [exact server_error_world_ordinary|].
  destruct (fetch_issues_exit_status production_args sample_client
              server_error_world server_error_world_ordinary) as [_ Hfail].
  rewrite (Hfail (Some "environment:production is:unresolved") _
             (HTTPError server_error) eq_refl eq_refl); [done|].
  unfold request_fails. cbn. split; [lia|reflexivity].
Defined.

(** The scenario of the filter, through the command. *)
Lemma fetch_issues_result_witness :
  (cmd_fetch_issues (filter_args "null") sample_client
     (issues_world [null_pointer_issue; timeout_issue])).2
  = Return [null_pointer_issue].
Proof.
  destruct (fetch_issues_result (filter_args "null") sample_client
              (issues_world [null_pointer_issue; timeout_issue])
              None None None
              (page_without_link [null_pointer_issue; timeout_issue])
              [null_pointer_issue; timeout_issue])
    as [_ Hfiltered];
    [reflexivity|reflexivity|reflexivity|reflexivity
    |unfold accepted; cbn; lia|reflexivity|].
  apply (Hfiltered "null"); [reflexivity|].
  repeat constructor; by eexists.
Defined.

(** ** More about the text filter *)

(** X10. On an issue whose title and culprit are strings when present and
    whose metadata is an object when present, the filter answers, and it
    answers [True] exactly when the case-folded filter occurs in the
    case-folded title, culprit, text of the metadata value or text of the
    metadata type, a missing field counting as the empty string. *)
Theorem text_filter_on_typed_issue `{!Runtime} m text_filter :
  well_typed_issue (JObj m) ->
  matches_text_filter (JObj m) text_filter
  = Return (occurs_in_fields m text_filter)
  ∧ (occurs_in_fields m text_filter = true
     ↔ ∃ field before after,
         field ∈ [field_text m "title"; field_text m "culprit";
                  field_text (metadata_of m) "value";
                  field_text (metadata_of m) "type"]
         ∧ str_lower field = before +:+ str_lower text_filter +:+ after).
Proof.
  intros Htyped. split; [by apply matches_text_filter_well_typed|].
  unfold occurs_in_fields. rewrite !orb_true_iff, !contains_spec. split.
  - intros [[[Hin|Hin]|Hin]|Hin]; destruct Hin as (before & after & Hin);
      eexists _, before, after; (split; [|exact Hin]); set_solver.
  - intros (field & before & after & Hfield & Hin).
    rewrite !elem_of_cons, elem_of_nil in Hfield.
    destruct Hfield as [->|[->|[->|[->|[]]]]]; eauto 10.
Qed.

(** A metadata value that is a number is matched through its text. *)
Lemma text_filter_on_typed_issue_witness :
  well_typed_issue (JObj well_typed_fields)
  ∧ matches_text_filter (JObj well_typed_fields) "504" = Return true.
Proof.
  assert (Htyped : well_typed_issue (JObj well_typed_fields)).
  { vm_compute. done. }
  split; [exact Htyped|].
  exact (proj1 (text_filter_on_typed_issue well_typed_fields "504" Htyped)).
Defined.

Lemma filter_issues_subsequence_witness :
  Forall (λ issue, ∃ b, matches_text_filter issue "null" = Return b)
    [null_pointer_issue; timeout_issue]
  ∧ ∃ kept,
      filter_issues [null_pointer_issue; timeout_issue] "null" = Return kept
      ∧ kept = [null_pointer_issue]
      ∧ sublist kept [null_pointer_issue; timeout_issue]
      ∧ filter_issues kept "null" = Return kept.
Proof.
  assert (Hall : Forall (λ issue, ∃ b,
                           matches_text_filter issue "null" = Return b)
                   [null_pointer_issue; timeout_issue]).
  { repeat constructor; by eexists. }
  split; [exact Hall|].
  exact (filter_issues_subsequence [null_pointer_issue; timeout_issue] "null"
           Hall).
Defined.

Section FilterFailures.
Context `{!Runtime}.

(** X12. The filter fails with nothing but [AttributeError], and only on
    an issue whose title or culprit is present without being a string or
    whose metadata is present without being an object. It looks at the
    fields in turn and stops at the first match: a title that contains the
    filter gives [True] whatever the later fields hold. *)
Theorem text_filter_failures m text_filter :
  (∀ e, matches_text_filter (JObj m) text_filter = Raise e ->
        e = AttributeError ∧ ¬ well_typed_issue (JObj m))
  ∧ (∀ title, m !! "title" = Some (JStr title) ->
              contains (str_lower text_filter) (str_lower title) = true ->
              matches_text_filter (JObj m) text_filter = Return true)
  ∧ matches_text_filter (JObj m) text_filter ≠ OutOfFuel.
Proof.
  split; [|split].
  - intros e He. split.
    + destruct (matches_text_filter_outcomes (JObj m) text_filter)
        as [[b Hb]|Hraise]; congruence.
    + intros Htyped.
      rewrite (matches_text_filter_well_typed _ _ Htyped) in He. done.
  - intros title Htitle Hin. unfold matches_text_filter. cbn.
    rewrite Htitle. cbn. by rewrite Hin.
  - destruct (matches_text_filter_outcomes (JObj m) text_filter)
      as [[b Hb]|Hraise]; congruence.
Qed.

End FilterFailures.

Example title_match_hides_null_culprit :
  matches_text_filter (JObj reset_title_issue) "reset" = Return true
  ∧ matches_text_filter (JObj reset_title_issue) "peer review"
    = Raise AttributeError.
Proof. split; reflexivity. Qed.

(** ** The payload of [update_issue] *)

(** X13. The body that [update_issue] sends holds an entry exactly for the
    arguments that are given: the status unless it is missing or empty, the
    assignee whenever it is not [None] (an empty one included), and each of
    the three flags whenever it is not [None], [False] included; it holds
    nothing else. *)
Theorem update_issue_data_fields status assigned_to has_seen is_bookmarked
    is_subscribed :
  let data := update_issue_data status assigned_to has_seen is_bookmarked
                is_subscribed in
  data !! "status" = JStr <$> truthy status
  ∧ data !! "assignedTo" = JStr <$> assigned_to
  ∧ data !! "hasSeen" = JBool <$> has_seen
  ∧ data !! "isBookmarked" = JBool <$> is_bookmarked
  ∧ data !! "isSubscribed" = JBool <$> is_subscribed
  ∧ dom data
    ⊆ {["status"; "assignedTo"; "hasSeen"; "isBookmarked"; "isSubscribed"]}.
Proof.
  unfold update_issue_data.
  destruct (truthy status), assigned_to, has_seen, is_bookmarked,
    is_subscribed; cbn;
    repeat split;
    try (by repeat (rewrite lookup_insert_eq
                    || (rewrite lookup_insert_ne by done)
                    || rewrite lookup_empty));
    rewrite ?dom_insert_L, dom_empty_L; set_solver.
Qed.

Example update_issue_data_keeps_false :
  update_issue_data (Some "") (Some "") (Some false) None None
  = <["assignedTo" := JStr ""]> (<["hasSeen" := JBool false]> ∅).
Proof. by apply map_eq; intros k; vm_compute. Qed.

(** ** The command [fetch-events] *)

(** [except Exception as e: ...; sys.exit(1)] around a computation. *)
Lemma try_except_exit {A} (body : M A) w :
  (try_except body (λ e, lift (Raise (SystemExit 1))) w).1 = (body w).1
  ∧ (try_except body (λ e, lift (Raise (SystemExit 1))) w).2
    = match (body w).2 with
      | Raise (SystemExit c) => Raise (SystemExit c)
      | Raise _ => Raise (SystemExit 1)
      | out => out
      end.
Proof.
  unfold try_except, lift.
  by destruct (body w) as [w' [a|[]|]].
Qed.

Section FetchEvents.
Context `{!JsonCodec}.

(** X14. With [--latest], [fetch-events] sends a single request, without
    query parameters, for the latest event of the issue; the limit, the
    pagination flag and the page bound play no part. It hands on that one
    event, and ends with exit status 1 when the request fails. *)
Theorem fetch_events_latest fuel args client w :
  ev_latest args = true ->
  (cmd_fetch_events fuel args client w).1
    = mkWorld (remote w)
        (sent w ++ [mkRequest
                      (base_url client +:+ "/issues/" +:+ ev_issue args
                         +:+ "/events/latest/")
                      (headers client) None])
  ∧ (∀ r event,
       remote w (sent w)
         (mkRequest
            (base_url client +:+ "/issues/" +:+ ev_issue args
               +:+ "/events/latest/")
            (headers client) None) = Responded r ->
       accepted r -> json_loads (text r) = Some event ->
       (cmd_fetch_events fuel args client w).2 = Return [event])
  ∧ (∀ e,
       request_fails (remote w) (sent w)
         (mkRequest
            (base_url client +:+ "/issues/" +:+ ev_issue args
               +:+ "/events/latest/")
            (headers client) None) e ->
       ordinary e ->
       (cmd_fetch_events fuel args client w).2 = Raise (SystemExit 1)).
Proof.
  intros Hlatest. unfold cmd_fetch_events. rewrite Hlatest.
  destruct (try_except_exit
              (event <- get_latest_event client (ev_issue args) ;; ret [event])
              w) as [Hw Hout].
  rewrite Hw, Hout. clear Hw Hout.
  assert (Hrun :
    (event <- get_latest_event client (ev_issue args) ;; ret [event]) w
    = (let req := mkRequest
                    (base_url client +:+ "/issues/" +:+ ev_issue args
                       +:+ "/events/latest/") (headers client) None in
       (mkWorld (remote w) (sent w ++ [req]),
        match remote w (sent w) req with
        | Failed e => Raise e
        | Responded r =>
            if bool_decide (400 <= status_code r < 600)
            then Raise (HTTPError r)
            else match json_loads (text r) with
                 | Some event => Return [event]
                 | None => Raise JSONDecodeError
                 end
        end))).
  { unfold get_latest_event, bind at 1 2. rewrite get_unfold. cbv zeta.
    destruct (remote w _ _) as [r|e]; [|done].
    case_bool_decide; [done|].
    unfold lift, response_object, ret. by destruct (json_loads (text r)). }
  rewrite Hrun. clear Hrun. cbv zeta. cbn [fst snd].
  set (req := mkRequest _ _ _).
  split; [|split].
  - done.
  - intros r event -> Hok Hevent. rewrite bool_decide_false by done.
    by rewrite Hevent.
  - intros e Hfail Hord. unfold request_fails in Hfail.
    destruct (remote w (sent w) req) as [r|e'].
    + destruct Hfail as [Hstatus ->]. by rewrite bool_decide_true.
    + subst e'. by destruct e.
Qed.

(** X15. With [--paginate --max-pages n], [n] other than 0, [fetch-events]
    sends at most [n] requests (one when [n] is negative), whatever the
    server answers, and with that much fuel it has ended. *)
Theorem fetch_events_request_bound fuel args client w n :
  ev_latest args = false -> ev_paginate args = true ->
  ev_max_pages args = Some n -> n ≠ 0 ->
  ∃ reqs,
    (cmd_fetch_events fuel args client w).1
      = mkWorld (remote w) (sent w ++ reqs)
    ∧ (length reqs <= Z.to_nat (Z.max 1 n))%nat
    ∧ ((Z.to_nat (Z.max 1 n) <= fuel)%nat ->
       (cmd_fetch_events fuel args client w).2 ≠ OutOfFuel).
Proof.
  intros Hlatest Hpaginate Hmax Hn. unfold cmd_fetch_events.
  rewrite Hlatest, Hpaginate, Hmax.
  destruct (try_except_exit
              (list_issue_events fuel client (ev_issue args) (ev_limit args)
                 true (Some n)) w) as [Hw Hout].
  rewrite Hw, Hout. clear Hw Hout.
  unfold list_issue_events, _get_paginated.
  destruct (paginate_loop_bound fuel client
              (base_url client +:+ "/issues/" +:+ ev_issue args +:+ "/events/")
              (Some {[ "limit" := JNum (ev_limit args) ]}) n [] 0 w Hn)
    as (reqs & Hw & Hlen & Hend).
  rewrite Z.sub_0_r in Hlen, Hend.
  exists reqs. split; [done|]. split; [done|].
  intros Hfuel. specialize (Hend Hfuel).
  by destruct (paginate_loop _ _ _ _ _ _ _ _).2 as [events|[]|].
Qed.

(** X16. When a request of a paginated [fetch-events] fails, on whatever
    page, the command ends there with exit status 1: the events of the pages
    before are not handed on. *)
Theorem fetch_events_failure_exits fuel args client w reqs k req e :
  ev_latest args = false -> ev_paginate args = true ->
  sent (cmd_fetch_events fuel args client w).1 = sent w ++ reqs ->
  reqs !! k = Some req ->
  request_fails (remote w) (sent w ++ take k reqs) req e ->
  ordinary e ->
  (cmd_fetch_events fuel args client w).2 = Raise (SystemExit 1)
  ∧ length reqs = S k.
Proof.
  intros Hlatest Hpaginate. unfold cmd_fetch_events.
  rewrite Hlatest, Hpaginate.
  destruct (try_except_exit
              (list_issue_events fuel client (ev_issue args) (ev_limit args)
                 true (ev_max_pages args)) w) as [Hw Hout].
  rewrite Hw, Hout. clear Hw Hout.
  unfold list_issue_events, _get_paginated.
  intros Hlog Hk Hfail Hord.
  destruct (paginate_loop_failure fuel client _ _ _ _ _ w reqs k req e
              Hlog Hk Hfail) as [-> Hlen].
  split; [|done]. by destruct e.
Qed.

End FetchEvents.

(** [fetch-events -i 123 --latest --paginate --max-pages 5] *)
Lemma fetch_events_latest_witness :
  ev_latest latest_event_args = true
  ∧ (cmd_fetch_events 9 latest_event_args sample_client latest_world).1
    = mkWorld (remote latest_world)
        (sent latest_world
         ++ [mkRequest "https://sentry.io/api/0/issues/123/events/latest/"
               (headers sample_client) None])
  ∧ (cmd_fetch_events 9 latest_event_args sample_client latest_world).2
    = Return [JObj ∅].
Proof.
  split; [reflexivity|].
  destruct (fetch_events_latest 9 latest_event_args sample_client latest_world
              eq_refl) as (Hw & Hevent & _).
  split; [exact Hw|].
  apply (Hevent empty_object_response (JObj ∅)); [reflexivity| |reflexivity].
  unfold accepted; cbn; lia.
Defined.

(** [fetch-events -i 123 --paginate --max-pages 2] against three pages. *)
Lemma fetch_events_request_bound_witness :
  (ev_latest (paginated_events (Some 2)) = false
   ∧ ev_paginate (paginated_events (Some 2)) = true
   ∧ ev_max_pages (paginated_events (Some 2)) = Some 2 ∧ 2 ≠ 0)
  ∧ ∃ reqs,
      (cmd_fetch_events 9 (paginated_events (Some 2)) sample_client
         three_page_world).1
        = mkWorld (remote three_page_world) (sent three_page_world ++ reqs)
      ∧ (length reqs <= Z.to_nat (Z.max 1 2))%nat
      ∧ ((Z.to_nat (Z.max 1 2) <= 9)%nat ->
         (cmd_fetch_events 9 (paginated_events (Some 2)) sample_client
            three_page_world).2 ≠ OutOfFuel).
Proof.
  split; [repeat split; lia|].
  apply (fetch_events_request_bound 9 (paginated_events (Some 2))
           sample_client three_page_world 2); reflexivity || lia.
Defined.

(** The third page answers 500: exit status 1, no events. *)
Lemma fetch_events_failure_exits_witness :
  (cmd_fetch_events 9 (paginated_events None) sample_client failing_world).2
    = Raise (SystemExit 1)
  ∧ length [first_request;
            mkRequest (cursor_url 1) (headers sample_client) None;
            mkRequest (cursor_url 2) (headers sample_client) None] = 3%nat.
Proof.
  apply (fetch_events_failure_exits 9 (paginated_events None) sample_client
           failing_world
           [first_request;
            mkRequest (cursor_url 1) (headers sample_client) None;
            mkRequest (cursor_url 2) (headers sample_client) None]
           2 (mkRequest (cursor_url 2) (headers sample_client) None)
           (HTTPError server_error)).
  - reflexivity.
  - reflexivity.
  - reflexivity.
  - reflexivity.
  - unfold request_fails. cbn. split; [lia|reflexivity].
  - exact I.
Defined.

(** ** The command [fetch-issue] *)

Section FetchIssue.
Context `{!JsonCodec}.

(** X17. [fetch-issue] sends a single request, without query parameters,
    for the issue. It hands on the decoded issue when the response is
    accepted and its body decodes, and ends with exit status 1 when the
    request fails or the body does not decode. *)
Theorem fetch_issue_outcome issue client w :
  (cmd_fetch_issue issue client w).1
    = mkWorld (remote w)
        (sent w ++ [mkRequest (base_url client +:+ "/issues/" +:+ issue +:+ "/")
                      (headers client) None])
  ∧ (∀ r,
       remote w (sent w)
         (mkRequest (base_url client +:+ "/issues/" +:+ issue +:+ "/")
            (headers client) None) = Responded r ->
       accepted r ->
       (cmd_fetch_issue issue client w).2
       = match json_loads (text r) with
         | Some v => Return v
         | None => Raise (SystemExit 1)
         end)
  ∧ (∀ e,
       request_fails (remote w) (sent w)
         (mkRequest (base_url client +:+ "/issues/" +:+ issue +:+ "/")
            (headers client) None) e ->
       ordinary e ->
       (cmd_fetch_issue issue client w).2 = Raise (SystemExit 1)).
Proof.
  unfold cmd_fetch_issue.
  destruct (try_except_exit (get_issue client issue) w) as [Hw Hout].
  rewrite Hw, Hout. clear Hw Hout.
  assert (Hrun :
    get_issue client issue w
    = (let req := mkRequest (base_url client +:+ "/issues/" +:+ issue +:+ "/")
                    (headers client) None in
       (mkWorld (remote w) (sent w ++ [req]),
        match remote w (sent w) req with
        | Failed e => Raise e
        | Responded r =>
            if bool_decide (400 <= status_code r < 600)
            then Raise (HTTPError r) else response_object r
        end))).
  { unfold get_issue, bind at 1. rewrite get_unfold. cbv zeta.
    destruct (remote w _ _) as [r|e]; [|done].
    by case_bool_decide. }
  rewrite Hrun. clear Hrun. cbv zeta. cbn [fst snd].
  set (req := mkRequest _ _ _).
  split; [done|]. split.
  - intros r -> Hok. rewrite bool_decide_false by done.
    unfold response_object. by destruct (json_loads (text r)).
  - intros e Hfail Hord. unfold request_fails in Hfail.
    destruct (remote w (sent w) req) as [r|e'].
    + destruct Hfail as [Hstatus ->]. by rewrite bool_decide_true.
    + subst e'. by destruct e.
Qed.

End FetchIssue.

Example fetch_issue_scenarios :
  (cmd_fetch_issue "123" sample_client latest_world).2 = Return (JObj ∅)
  ∧ (cmd_fetch_issue "123" sample_client server_error_world).2
    = Raise (SystemExit 1)
  ∧ (cmd_fetch_issue "123" sample_client not_modified_world).2
    = Raise (SystemExit 1).
Proof. repeat split; reflexivity. Qed.
